(** * ForgetYourPassword: the deterministic password derivation core

    A shallow embedding of [password_generator.py], [hardware_detector.py]
    and [core.py], and the properties of the derivation pipeline

      combined input -> PBKDF2-HMAC-SHA256 -> character mapping -> shuffle.

    Conventions of the embedding:
    - a Python [int] is a [Z]; [len] returns a [Z];
    - [bytes] is a [list byte]; indexing a [bytes] object yields the value
      of the byte as an [int];
    - a Python [str] holding text is represented by the [string] of its
      UTF-8 bytes, so [str.encode()] is [list_byte_of_string]; the password
      alphabet is ASCII, where characters and bytes coincide;
    - the password buffer (a Python list of one-character strings) is a
      [list ascii], read and written by index;
    - exceptions are explicit: a computation is an [outcome], and
      [try ... except Exception] is [try_except];
    - [while] loops carry fuel; the fuel handed to each loop by
      [_map_to_password] is shown to be sufficient
      ([_map_to_password_terminates]). *)

From Stdlib Require Import ZArith NArith List String Ascii Lia Bool.
From Stdlib.Strings Require Byte.
From stdpp Require Import gmap strings list fin_maps.

Abbreviation byte := Byte.byte.

Local Open Scope Z_scope.

(** ** Bytes *)

Definition byte_val (b : byte) : Z := Z.of_N (Byte.to_N b).

Definition byte_of_Z (z : Z) : byte :=
  match Byte.of_N (Z.to_N (z mod 256)) with
  | Some b => b
  | None => Byte.x00
  end.

(** [n.to_bytes(4, 'big')] for [0 <= n < 2^32], most significant byte first. *)
Definition be32 (n : Z) : list byte :=
  [byte_of_Z (Z.shiftr n 24); byte_of_Z (Z.shiftr n 16);
   byte_of_Z (Z.shiftr n 8); byte_of_Z n].

Definition xor_byte (x y : byte) : byte :=
  byte_of_Z (Z.lxor (byte_val x) (byte_val y)).

Definition xor_bytes (xs ys : list byte) : list byte := zip_with xor_byte xs ys.

(** ** SHA-256 (FIPS 180-4), the function behind [hashlib.sha256(..).digest()] *)

Module SHA256.

Definition trunc32 (x : Z) : Z := Z.land x (Z.ones 32).
Definition add32 (x y : Z) : Z := trunc32 (x + y).
Definition rotr (n x : Z) : Z :=
  Z.lor (Z.shiftr x n) (trunc32 (Z.shiftl x (32 - n))).
Definition shr (n x : Z) : Z := Z.shiftr x n.

Definition Ch (x y z : Z) : Z :=
  Z.lxor (Z.land x y) (Z.land (Z.lxor x (Z.ones 32)) z).
Definition Maj (x y z : Z) : Z :=
  Z.lxor (Z.lxor (Z.land x y) (Z.land x z)) (Z.land y z).
Definition bsig0 (x : Z) : Z := Z.lxor (Z.lxor (rotr 2 x) (rotr 13 x)) (rotr 22 x).
Definition bsig1 (x : Z) : Z := Z.lxor (Z.lxor (rotr 6 x) (rotr 11 x)) (rotr 25 x).
Definition ssig0 (x : Z) : Z := Z.lxor (Z.lxor (rotr 7 x) (rotr 18 x)) (shr 3 x).
Definition ssig1 (x : Z) : Z := Z.lxor (Z.lxor (rotr 17 x) (rotr 19 x)) (shr 10 x).

(** The round constants are the first 32 fractional bits of the cube
    roots of the first 64 primes, the initial state the first 32
    fractional bits of the square roots of the first 8 primes. *)
Definition primes : list Z :=
  [2; 3; 5; 7; 11; 13; 17; 19; 23; 29; 31; 37; 41; 43; 47; 53;
   59; 61; 67; 71; 73; 79; 83; 89; 97; 101; 103; 107; 109; 113; 127; 131;
   137; 139; 149; 151; 157; 163; 167; 173; 179; 181; 191; 193; 197; 199;
   211; 223; 227; 229; 233; 239; 241; 251; 257; 263; 269; 271; 277; 281;
   283; 293; 307; 311].

(** Integer cube root by bisection on the bits of the result. *)
Fixpoint cbrt_bits (bits : nat) (n r : Z) : Z :=
  match bits with
  | O => r
  | S k =>
      let r' := r + 2 ^ Z.of_nat k in
      cbrt_bits k n (if r' * r' * r' <=? n then r' else r)
  end.
Definition cbrt (n : Z) : Z := cbrt_bits 48 n 0.

Definition K : list Z :=
  Eval vm_compute in map (fun p => trunc32 (cbrt (p * 2 ^ 96))) primes.
Definition H0 : list Z :=
  Eval vm_compute in map (fun p => trunc32 (Z.sqrt (p * 2 ^ 64))) (take 8 primes).

(** Padding: a one bit, zero bits up to 56 mod 64 bytes, and the message
    length in bits as a 64-bit big-endian number. *)
Definition be64 (n : Z) : list byte := be32 (Z.shiftr n 32) ++ be32 n.

Definition pad (msg : list byte) : list byte :=
  let l := Z.of_nat (length msg) in
  msg ++ [Byte.x80] ++ repeat Byte.x00 (Z.to_nat ((55 - l) mod 64)) ++ be64 (8 * l).

Fixpoint words_of_bytes (bs : list byte) : list Z :=
  match bs with
  | b0 :: b1 :: b2 :: b3 :: rest =>
      (Z.shiftl (byte_val b0) 24 + Z.shiftl (byte_val b1) 16
       + Z.shiftl (byte_val b2) 8 + byte_val b3) :: words_of_bytes rest
  | _ => []
  end.

Fixpoint blocks (n : nat) (data : list byte) : list (list Z) :=
  match n with
  | O => []
  | S n' => words_of_bytes (take 64 data) :: blocks n' (drop 64 data)
  end.

(** Message schedule, kept most recent word first while it is built. *)
Fixpoint extend_schedule (n : nat) (rev_w : list Z) : list Z :=
  match n with
  | O => rev_w
  | S n' =>
      let wt := add32 (add32 (ssig1 (nth 1 rev_w 0)) (nth 6 rev_w 0))
                      (add32 (ssig0 (nth 14 rev_w 0)) (nth 15 rev_w 0)) in
      extend_schedule n' (wt :: rev_w)
  end.
Definition schedule (block : list Z) : list Z :=
  rev (extend_schedule 48 (rev block)).

Definition state : Type := Z * Z * Z * Z * Z * Z * Z * Z.

Definition round (s : state) (kw : Z * Z) : state :=
  let '(a, b, c, d, e, f, g, h) := s in
  let t1 := add32 (add32 (add32 h (bsig1 e)) (add32 (Ch e f g) kw.1)) kw.2 in
  let t2 := add32 (bsig0 a) (Maj a b c) in
  (add32 t1 t2, a, b, c, add32 d t1, e, f, g).

Definition compress (s : state) (block : list Z) : state :=
  let '(a, b, c, d, e, f, g, h) := s in
  let '(a', b', c', d', e', f', g', h') :=
    foldl round s (zip K (schedule block)) in
  (add32 a a', add32 b b', add32 c c', add32 d d',
   add32 e e', add32 f f', add32 g g', add32 h h').

Definition initial_state : state :=
  match H0 with
  | [a; b; c; d; e; f; g; h] => (a, b, c, d, e, f, g, h)
  | _ => (0, 0, 0, 0, 0, 0, 0, 0)
  end.

Definition digest_of_state (s : state) : list byte :=
  let '(a, b, c, d, e, f, g, h) := s in
  be32 a ++ be32 b ++ be32 c ++ be32 d ++ be32 e ++ be32 f ++ be32 g ++ be32 h.

Definition sha256 (msg : list byte) : list byte :=
  let data := pad msg in
  digest_of_state (foldl compress initial_state (blocks (length data / 64) data)).

End SHA256.

(** [bytes.hex()] / [hexdigest()]: two lowercase hexadecimal digits per byte. *)
Definition hex_digit (n : Z) : ascii :=
  nth (Z.to_nat n) (list_ascii_of_string "0123456789abcdef") "0"%char.

Definition hexdigest (bs : list byte) : string :=
  string_of_list_ascii
    (flat_map (fun b => [hex_digit (byte_val b / 16); hex_digit (byte_val b mod 16)]) bs).

(** ** The [cryptography] primitives used by the key deriver *)

(** [hashes.SHA256()]: a hash algorithm with its digest and block sizes. *)
Record HashAlgorithm : Type := {
  digest : list byte -> list byte;
  digest_size : nat;
  block_size : nat
}.

Definition SHA256_algorithm : HashAlgorithm :=
  {| digest := SHA256.sha256; digest_size := 32; block_size := 64 |}.

(** HMAC (RFC 2104). *)
Definition hmac (alg : HashAlgorithm) (key msg : list byte) : list byte :=
  let key0 := if (block_size alg <? length key)%nat then digest alg key else key in
  let key0 := key0 ++ repeat Byte.x00 (block_size alg - length key0) in
  digest alg (map (xor_byte Byte.x5c) key0
              ++ digest alg (map (xor_byte Byte.x36) key0 ++ msg)).

(** PBKDF2 (RFC 8018, section 5.2): block [i] is the exclusive-or of the
    [c] iterates [U_1 = PRF (P, S || INT (i))], [U_j = PRF (P, U_(j-1))]. *)
Definition pbkdf2_block (prf : list byte -> list byte -> list byte)
    (password salt : list byte) (c : N) (i : Z) : list byte :=
  let u1 := prf password (salt ++ be32 i) in
  snd (N.iter (c - 1)
         (fun ut : list byte * list byte =>
            let u := prf password ut.1 in (u, xor_bytes ut.2 u))
         (u1, u1)).

Definition pbkdf2 (prf : list byte -> list byte -> list byte) (hLen : nat)
    (password salt : list byte) (c : N) (dkLen : nat) : list byte :=
  let l := ((dkLen + hLen - 1) / hLen)%nat in
  take dkLen
    (flat_map (fun i => pbkdf2_block prf password salt c (Z.of_nat i)) (seq 1 l)).

(** [PBKDF2HMAC(algorithm=.., length=.., salt=.., iterations=..)] and its
    [derive] method. *)
Record PBKDF2HMAC : Type := {
  algorithm : HashAlgorithm;
  kdf_length : nat;
  salt : list byte;
  iterations : N
}.

Definition derive (kdf : PBKDF2HMAC) (key_material : list byte) : list byte :=
  pbkdf2 (hmac (algorithm kdf)) (digest_size (algorithm kdf))
         key_material (salt kdf) (iterations kdf) (kdf_length kdf).


(** ** Outcomes of Python computations *)

(** The exceptions the modelled code can raise; each carries the message
    that [str(e)] returns. All three derive from [Exception]. *)
Inductive exception : Type :=
  | IndexError (msg : string)
  | OverflowError (msg : string)
  | ZeroDivisionError (msg : string).

Definition str_of_exception (e : exception) : string :=
  match e with
  | IndexError msg | OverflowError msg | ZeroDivisionError msg => msg
  end.

(** A call returns a value, raises, or exhausts the fuel of a [while]. *)
Inductive outcome (A : Type) : Type :=
  | Returns (a : A)
  | Raises (e : exception)
  | OutOfFuel.
Arguments Returns {A} a.
Arguments Raises {A} e.
Arguments OutOfFuel {A}.

(** Sequencing, with stdpp's notation [x ← m; k]: an exception or an
    exhausted loop ends the computation. *)
Global Instance outcome_bind : MBind outcome := λ A B k m,
  match m with
  | Returns a => k a
  | Raises e => Raises e
  | OutOfFuel => OutOfFuel
  end.

(** [try: body  except Exception as e: handler(e)]. *)
Definition try_except {A : Type} (body : outcome A) (handler : exception -> outcome A)
  : outcome A :=
  match body with
  | Raises e => handler e
  | other => other
  end.

(** ** Loops *)

Inductive flow (S : Type) : Type :=
  | Next (s : S)      (* fall through to the next iteration *)
  | Break (s : S).    (* [break] *)
Arguments Next {S} s.
Arguments Break {S} s.

(** [for x in xs: body], threading the variables the body assigns. *)
Fixpoint for_each {X S : Type} (xs : list X) (body : X -> S -> outcome (flow S)) (s : S)
  : outcome S :=
  match xs with
  | [] => Returns s
  | x :: xs' =>
      r ← body x s;
      match r with
      | Next s' => for_each xs' body s'
      | Break s' => Returns s'
      end
  end.

(** [while cond: body]. *)
Fixpoint while {S : Type} (fuel : nat) (cond : S -> bool) (body : S -> outcome S) (s : S)
  : outcome S :=
  if cond s then
    match fuel with
    | O => OutOfFuel
    | Datatypes.S fuel' => s' ← body s; while fuel' cond body s'
    end
  else Returns s.

(** ** Built-ins *)

Definition len {A : Type} (l : list A) : Z := Z.of_nat (length l).
Definition str_len (s : string) : Z := Z.of_nat (String.length s).

(** Position addressed by index [i] in a sequence of [n] items: negative
    indices count from the end, anything else out of range is an error. *)
Definition index_position (n i : Z) : option nat :=
  let i' := if i <? 0 then i + n else i in
  if (0 <=? i') && (i' <? n) then Some (Z.to_nat i') else None.

(** [l[i]] *)
Definition getitem {A : Type} (l : list A) (i : Z) : outcome A :=
  match index_position (len l) i with
  | Some k =>
      match l !! k with
      | Some x => Returns x
      | None => Raises (IndexError "list index out of range")
      end
  | None => Raises (IndexError "list index out of range")
  end.

(** [l[i] = x] *)
Definition setitem {A : Type} (l : list A) (i : Z) (x : A) : outcome (list A) :=
  match index_position (len l) i with
  | Some k => Returns (<[k := x]> l)
  | None => Raises (IndexError "list assignment index out of range")
  end.

(** [b[i]] for [b : bytes]: the value of the byte. *)
Definition bytes_getitem (b : list byte) (i : Z) : outcome Z :=
  x ← getitem b i; Returns (byte_val x).

(** [s[i]] for [s : str]. *)
Definition str_getitem (s : string) (i : Z) : outcome ascii :=
  getitem (list_ascii_of_string s) i.

(** [a % b] *)
Definition py_mod (a b : Z) : outcome Z :=
  if b =? 0 then Raises (ZeroDivisionError "integer modulo by zero")
  else Returns (a mod b).

(** [n.to_bytes(4, 'big')] *)
Definition to_bytes_4_big (n : Z) : outcome (list byte) :=
  if n <? 0 then Raises (OverflowError "can't convert negative int to unsigned")
  else if 2 ^ 32 <=? n then Raises (OverflowError "int too big to convert")
  else Returns (be32 n).

(** [range(n)] *)
Definition range (n : Z) : list Z := map Z.of_nat (seq 0 (Z.to_nat n)).

(** [l[:stop]] *)
Definition slice_to {A : Type} (l : list A) (stop : Z) : list A :=
  if stop <? 0 then take (Z.to_nat (len l + stop)) l else take (Z.to_nat stop) l.

(** [s[:stop]] for [s : str]. *)
Definition str_slice_to (s : string) (stop : Z) : string :=
  string_of_list_ascii (slice_to (list_ascii_of_string s) stop).

(** [sep.join(xs)] *)
Definition join (sep : string) (xs : list string) : string := String.concat sep xs.

(** [s.encode()] *)
Definition encode (s : string) : list byte := list_byte_of_string s.

(** Truth value of a [str] and of a list. *)
Definition str_truthy (s : string) : bool :=
  match s with EmptyString => false | _ => true end.
Definition list_truthy {A : Type} (l : list A) : bool :=
  match l with [] => false | _ => true end.

(** ** password_generator.py *)

Definition DEFAULT_PBKDF2_ITERATIONS : N := 200000.
Definition DEFAULT_PASSWORD_LENGTH : Z := 32.

Definition UPPERCASE_CHARS : string := "ABCDEFGHIJKLMNOPQRSTUVWXYZ".
Definition LOWERCASE_CHARS : string := "abcdefghijklmnopqrstuvwxyz".
Definition DIGIT_CHARS : string := "0123456789".
Definition SYMBOL_CHARS : string := "!@#$%^&*()_+-=[]{}|;:,.<>?".

Module PasswordGenerator.

Definition _generate_pbkdf2 (input_data : string) : list byte :=
  let salt := SHA256.sha256 (list_byte_of_string "ForgetYourpassword-v1-salt") in
  let kdf := {| algorithm := SHA256_algorithm;
                kdf_length := 64;
                salt := salt;
                iterations := DEFAULT_PBKDF2_ITERATIONS |} in
  derive kdf (encode input_data).

Definition char_sets : list string :=
  [UPPERCASE_CHARS; LOWERCASE_CHARS; DIGIT_CHARS; SYMBOL_CHARS].

Definition all_chars : string := join "" char_sets.

(** Step 1: one character from each set; the state is
    [(password, key_index)]. *)
Definition step1 (key_material : list byte) (st : list ascii * Z)
  : outcome (list ascii * Z) :=
  for_each char_sets
    (fun char_set '(password, key_index) =>
       if key_index <? len key_material then
         b ← bytes_getitem key_material key_index;
         char_index ← py_mod b (str_len char_set);
         c ← str_getitem char_set char_index;
         Returns (Next (password ++ [c], key_index + 1))
       else Returns (Next (password, key_index)))
    st.

(** Step 2: fill from all characters while key material remains. *)
Definition step2 (fuel : nat) (key_material : list byte) (length : Z)
    (st : list ascii * Z) : outcome (list ascii * Z) :=
  while fuel
    (fun '(password, key_index) =>
       (len password <? length) && (key_index <? len key_material))
    (fun '(password, key_index) =>
       b ← bytes_getitem key_material key_index;
       char_index ← py_mod b (str_len all_chars);
       c ← str_getitem all_chars char_index;
       Returns (password ++ [c], key_index + 1))
    st.

(** One round of step 3: hash the key material with the current length
    of the password and append characters until [length] is reached or
    the digest is used up. *)
Definition extension_round (key_material : list byte) (length : Z)
    (password : list ascii) : outcome (list ascii) :=
  counter ← to_bytes_4_big (len password);
  let extended_key := SHA256.sha256 (key_material ++ counter) in
  for_each extended_key
    (fun b password =>
       if len password >=? length then Returns (Break password)
       else
         char_index ← py_mod (byte_val b) (str_len all_chars);
         c ← str_getitem all_chars char_index;
         Returns (Next (password ++ [c])))
    password.

(** Step 3: extend by hash chaining. *)
Definition step3 (fuel : nat) (key_material : list byte) (length : Z)
    (password : list ascii) : outcome (list ascii) :=
  while fuel (fun password => len password <? length)
    (extension_round key_material length) password.

(** Step 4: the shuffle; [password[i], password[j] = password[j], password[i]]
    reads [password[j]] and [password[i]], then stores into [i] and [j]. *)
Definition step4 (key_material : list byte) (password : list ascii)
  : outcome (list ascii) :=
  for_each (range (len password))
    (fun i password =>
       if i <? len key_material then
         b ← bytes_getitem key_material i;
         j ← py_mod b (len password);
         pj ← getitem password j;
         pi ← getitem password i;
         password ← setitem password i pj;
         password ← setitem password j pi;
         Returns (Next password)
       else Returns (Next password))
    password.

(** The buffer as steps 1 to 3 leave it. The fuel of the two [while]
    loops bounds their number of iterations: step 2 advances [key_index]
    through [key_material], step 3 appends at least one character per
    round. *)
Definition fill_buffer (key_material : list byte) (length : Z)
  : outcome (list ascii) :=
  let password := [] in
  let key_index := 0 in
  '(password, key_index) ← step1 key_material (password, key_index);
  '(password, key_index) ←
    step2 (List.length key_material) key_material length (password, key_index);
  step3 (Z.to_nat length) key_material length password.

Definition _map_to_password (key_material : list byte) (length : Z) : outcome string :=
  password ← fill_buffer key_material length;
  password ← step4 key_material password;
  Returns (string_of_list_ascii (slice_to password length)).

Definition combined_input (master_key : string) (user_keys : list string) : string :=
  (master_key +:+ "|") +:+ join "|" user_keys.

Definition generate_password (master_key : string) (user_keys : list string)
    (length : Z) : outcome string :=
  let combined_input := combined_input master_key user_keys in
  let key_material := _generate_pbkdf2 combined_input in
  _map_to_password key_material length.

End PasswordGenerator.

(** ** hardware_detector.py *)

(** What the probes of the machine report: [_get_cpu_id] and
    [_get_motherboard_serial] return a string or [None] (every failure
    inside them is caught and turned into [None]); [platform.platform()]
    describes the system. *)
Record HardwareDetector : Type := {
  _get_cpu_id : option string;
  _get_motherboard_serial : option string;
  platform_platform : string
}.

Definition option_truthy (o : option string) : bool :=
  match o with Some s => str_truthy s | None => false end.

Definition get_default_fingerprint (self : HardwareDetector) : string :=
  let identifiers := [] in
  let cpu_id := _get_cpu_id self in
  let identifiers :=
    if option_truthy cpu_id then identifiers ++ ["cpu:" +:+ default "" cpu_id]
    else identifiers in
  let mb_serial := _get_motherboard_serial self in
  let identifiers :=
    if option_truthy mb_serial then identifiers ++ ["mb:" +:+ default "" mb_serial]
    else identifiers in
  let identifiers :=
    if negb (list_truthy identifiers)
    then identifiers ++ ["sys:" +:+ platform_platform self]
    else identifiers in
  let combined := join "|" identifiers in
  str_slice_to (hexdigest (SHA256.sha256 (encode combined))) 32.

(** ** core.py *)

(** Values stored in the result dictionary. *)
Inductive value : Type :=
  | VBool (b : bool)
  | VStr (s : string)
  | VInt (n : Z).

Module PasswordCore.

Definition generate_password (hardware_detector : HardwareDetector)
    (master_key : string) (user_keys : list string) (length : Z)
    (use_default_fingerprint : bool) : outcome (gmap string value) :=
  try_except
    (if negb (str_truthy master_key) && negb use_default_fingerprint then
       Returns {[ "success" := VBool false; "error" := VStr "Master key required" ]}
     else if negb (list_truthy user_keys) then
       Returns {[ "success" := VBool false;
                  "error" := VStr "At least one user key required" ]}
     else
       let '(final_master_key, source) :=
         if use_default_fingerprint
         then (get_default_fingerprint hardware_detector, "default_fingerprint")
         else (master_key, "manual_master_key") in
       password ←
         PasswordGenerator.generate_password final_master_key user_keys length;
       Returns {[ "success" := VBool true;
                  "password" := VStr password;
                  "length" := VInt (str_len password);
                  "source" := VStr source;
                  "keys_used" := VInt (len user_keys) ]})
    (fun e =>
       Returns {[ "success" := VBool false; "error" := VStr (str_of_exception e) ]}).

End PasswordCore.

(** ** Reading the result dictionary *)

(** The error kinds of the specification, as the messages [core.py]
    reports them; the core has no message for a rejected length. *)
Definition MissingSecret : string := "Master key required".
Definition MissingKeywords : string := "At least one user key required".

Definition is_success (r : gmap string value) : Prop :=
  r !! "success" = Some (VBool true).
Definition is_failure (r : gmap string value) : Prop :=
  r !! "success" = Some (VBool false).
Definition fails_with (r : gmap string value) (msg : string) : Prop :=
  is_failure r ∧ r !! "error" = Some (VStr msg) ∧ r !! "password" = None.

Definition success_result (password source : string) (keys_used : Z) : gmap string value :=
  {[ "success" := VBool true;
     "password" := VStr password;
     "length" := VInt (str_len password);
     "source" := VStr source;
     "keys_used" := VInt keys_used ]}.
Definition failure_result (msg : string) : gmap string value :=
  {[ "success" := VBool false; "error" := VStr msg ]}.

(** ** Character classes *)

Definition chars (s : string) : list ascii := list_ascii_of_string s.

(** [contains_from char_set password]: some character of [password]
    belongs to [char_set]. *)
Definition contains_from (char_set password : string) : bool :=
  existsb (fun c => bool_decide (c ∈ chars char_set)) (chars password).

Definition covers_all_classes (password : string) : bool :=
  contains_from UPPERCASE_CHARS password
  && contains_from LOWERCASE_CHARS password
  && contains_from DIGIT_CHARS password
  && contains_from SYMBOL_CHARS password.

(** ** The mapper in the words of the specification *)

(** The character a value selects from a character set: [char_set[v % len(char_set)]]. *)
Definition pick (char_set : string) (v : Z) : ascii :=
  nth (Z.to_nat (v mod str_len char_set)) (chars char_set) Ascii.zero.

(** Phase A: the i-th class paired with the i-th byte of the key material. *)
Definition class_prefix (key_material : list byte) : list ascii :=
  zip_with (fun char_set b => pick char_set (byte_val b))
    PasswordGenerator.char_sets key_material.

(** [key_material[i]] *)
Definition key_byte (key_material : list byte) (i : nat) : Z :=
  byte_val (default Byte.x00 (key_material !! i)).

(** Exchange of the items at positions [i] and [j]. *)
Definition swap {A : Type} (l : list A) (i j : nat) : list A :=
  match l !! i, l !! j with
  | Some x, Some y => <[j := x]> (<[i := y]> l)
  | _, _ => l
  end.

(** Phase D as the specification words it: for [i] from [0] to
    [length - 1], if [i < 64], swap positions [i] and
    [key_material[i] mod length]. *)
Definition spec_phase_D (key_material : list byte) (length : Z) (buf : list ascii)
  : list ascii :=
  foldl (fun buf i =>
           if (i <? 64)%nat
           then swap buf i (Z.to_nat (key_byte key_material i mod length))
           else buf)
        buf (seq 0 (Z.to_nat length)).

(** An extension round as the specification words it, for an alphabet
    indexed modulo [modulus]: the digest of the key material and the
    big-endian 32-bit current length, its bytes appended until the
    password has [length] characters or the digest is used up. *)
Definition spec_extension_round (modulus : Z) (key_material : list byte) (length : Z)
    (password : list ascii) : list ascii :=
  let extended := SHA256.sha256 (key_material ++ be32 (len password)) in
  password
  ++ take (Z.to_nat (length - len password))
       (map (fun b => nth (Z.to_nat (byte_val b mod modulus))
                        (chars PasswordGenerator.all_chars) Ascii.zero)
            extended).

(** The key deriver as the specification words it: PBKDF2 with
    HMAC-SHA-256, 200,000 iterations, the digest of the fixed literal as
    salt, 64 bytes of output in two blocks of 32. *)
Definition spec_key_deriver (combined_input : string) : list byte :=
  let prf := hmac SHA256_algorithm in
  let salt := SHA256.sha256 (list_byte_of_string "ForgetYourpassword-v1-salt") in
  let password := list_byte_of_string combined_input in
  pbkdf2_block prf password salt 200000 1 ++ pbkdf2_block prf password salt 200000 2.

(** The combined input as the specification words it: the secret, then
    each keyword in the order supplied, each preceded by a separator. *)
Definition spec_combined_input (secret_source : string) (keywords : list string)
  : string :=
  foldl (fun acc keyword => acc +:+ "|" +:+ keyword) secret_source keywords.

(** Sample key materials for the examples. *)
Definition km_counting : list byte := map (fun i => byte_of_Z (Z.of_nat i)) (seq 0 64).
Definition km_ones : list byte := repeat Byte.x01 64.

Definition sample_detector : HardwareDetector :=
  {| _get_cpu_id := Some "0"; _get_motherboard_serial := None;
     platform_platform := "Linux" |}.

(** The buffer of [km_counting] once its 64 bytes are consumed. *)
Definition buffer_64 : list ascii :=
  chars "Ab2$EFGHIJKLMNOPQRSTUVWXYZabcdefghijklmnopqrstuvwxyz0123456789!@".

(** A string without the separator of the combined input. *)
Definition pipe_free (s : string) : Prop := "|"%char ∉ chars s.

(** * Test vectors *)

Example sha256_abc :
  hexdigest (SHA256.sha256 (list_byte_of_string "abc"))
  = "ba7816bf8f01cfea414140de5dae2223b00361a396177a9cb410ff61f20015ad"%string.
Proof. vm_compute. reflexivity. Qed.

Example sha256_empty :
  hexdigest (SHA256.sha256 [])
  = "e3b0c44298fc1c149afbf4c8996fb92427ae41e4649b934ca495991b7852b855"%string.
Proof. vm_compute. reflexivity. Qed.

Example sha256_two_blocks :
  hexdigest (SHA256.sha256 (repeat (byte_of_Z 97) 120))
  = "2f3d335432c70b580af0e8e1b3674a7c020d683aa5f73aaaedfdc55af904c21c"%string.
Proof. vm_compute. reflexivity. Qed.

Example hmac_sha256_vector :
  hexdigest (hmac SHA256_algorithm (list_byte_of_string "key")
               (list_byte_of_string "The quick brown fox jumps over the lazy dog"))
  = "f7bc83f430538424b13298e6aa6fb143ef4d59a14946175997479dbc2d1a3cd8"%string.
Proof. vm_compute. reflexivity. Qed.

Example hmac_sha256_long_key :
  hexdigest (hmac SHA256_algorithm (repeat (byte_of_Z 107) 100) (list_byte_of_string "msg"))
  = "bd56a1782c2830e8abc6ed866a57a1230661e650b84c62f7ee3accc5fa5af491"%string.
Proof. vm_compute. reflexivity. Qed.

(** RFC 7914, section 11: PBKDF2-HMAC-SHA-256 (P = passwd, S = salt,
    c = 1, dkLen = 64). *)
Example pbkdf2_rfc7914 :
  hexdigest (derive {| algorithm := SHA256_algorithm; kdf_length := 64;
                       salt := list_byte_of_string "salt"; iterations := 1 |}
               (list_byte_of_string "passwd"))
  = ("55ac046e56e3089fec1691c22544b605f94185216dde0465e68b9d57c20dacbc"
     +:+ "49ca9cccf179b645991664b39d77ef317c71b845b1e30bd509112041d3a19783")%string.
Proof. vm_compute. reflexivity. Qed.

Example pbkdf2_three_iterations :
  hexdigest (derive {| algorithm := SHA256_algorithm; kdf_length := 40;
                       salt := list_byte_of_string "salt"; iterations := 3 |}
               (list_byte_of_string "password"))
  = ("ad35240ac683febfaf3cd49d845473fbbbaa2437f5f82d5a415ae00ac76c6bfc"
     +:+ "cf9a9b8d6d2fe4a1")%string.
Proof. vm_compute. reflexivity. Qed.

(** The mapper on two key materials, traced by hand from the source. *)
Example map_counting_8 :
  PasswordGenerator._map_to_password km_counting 8 = Returns "Ab2$EFGH"%string.
Proof. vm_compute. reflexivity. Qed.

Example map_ones_8 :
  PasswordGenerator._map_to_password km_ones 8 = Returns "bBB1@BBB"%string.
Proof. vm_compute. reflexivity. Qed.

Example map_ones_minus_1 :
  PasswordGenerator._map_to_password km_ones (-1) = Returns "b@B"%string.
Proof. vm_compute. reflexivity. Qed.

Example fingerprint_sample :
  String.length (get_default_fingerprint sample_detector) = 32%nat.
Proof. vm_compute. reflexivity. Qed.

(** * Properties *)

(** ** Sequencing and loops *)

Lemma bind_returns {A B : Type} (a : A) (k : A -> outcome B) :
  mbind k (Returns a) = k a.
Proof. reflexivity. Qed.

Lemma bind_returns_inv {A B : Type} (m : outcome A) (k : A -> outcome B) (b : B) :
  mbind k m = Returns b -> exists a, m = Returns a /\ k a = Returns b.
Proof. destruct m as [a| |]; simpl; intros H; try discriminate. eauto. Qed.

(** A [while] loop whose body keeps an invariant and decreases a measure
    returns, given fuel for as many iterations as the measure allows. *)
Lemma while_returns {S : Type} (cond : S -> bool) (body : S -> outcome S)
    (I : S -> Prop) (measure : S -> nat) :
  (forall s, I s -> cond s = true ->
     exists s', body s = Returns s' /\ I s' /\ (measure s' < measure s)%nat) ->
  forall fuel s, I s -> (measure s <= fuel)%nat ->
    exists s', while fuel cond body s = Returns s' /\ I s' /\ cond s' = false.
Proof.
  intros Hbody fuel. induction fuel as [|fuel IH]; intros s Hs Hfuel.
  - simpl. destruct (cond s) eqn:Hc; [|eauto].
    destruct (Hbody s Hs Hc) as (s' & _ & _ & Hlt). lia.
  - simpl. destruct (cond s) eqn:Hc; [|eauto].
    destruct (Hbody s Hs Hc) as (s' & -> & Hs' & Hlt). simpl.
    apply IH; [done | lia].
Qed.

(** The same when the body may also raise: the loop returns or raises, and
    never runs out of fuel. *)
Lemma while_returns_or_raises {S : Type} (cond : S -> bool) (body : S -> outcome S)
    (I : S -> Prop) (R : exception -> Prop) (measure : S -> nat) :
  (forall s, I s -> cond s = true ->
     (exists s', body s = Returns s' /\ I s' /\ (measure s' < measure s)%nat)
     \/ (exists e, body s = Raises e /\ R e)) ->
  (forall s, I s -> cond s = true -> (0 < measure s)%nat) ->
  forall fuel s, I s -> (measure s <= fuel)%nat ->
    (exists s', while fuel cond body s = Returns s' /\ I s' /\ cond s' = false)
    \/ (exists e, while fuel cond body s = Raises e /\ R e).
Proof.
  intros Hbody Hpos fuel. induction fuel as [|fuel IH]; intros s Hs Hfuel.
  - simpl. destruct (cond s) eqn:Hc; [|eauto].
    specialize (Hpos s Hs Hc). lia.
  - simpl. destruct (cond s) eqn:Hc; [|eauto].
    destruct (Hbody s Hs Hc) as [(s' & -> & Hs' & Hlt)|(e & -> & He)]; simpl.
    + apply IH; [done | lia].
    + eauto.
Qed.

(** ** Built-ins *)

Lemma byte_val_range (b : byte) : 0 <= byte_val b < 256.
Proof.
  unfold byte_val. pose proof (Byte.to_N_bounded b). lia.
Qed.

Lemma len_app {A : Type} (l k : list A) : len (l ++ k) = len l + len k.
Proof. unfold len. rewrite length_app. lia. Qed.

Lemma len_nonneg {A : Type} (l : list A) : 0 <= len l.
Proof. unfold len. lia. Qed.

Lemma index_position_in_range (n i : Z) :
  0 <= i < n -> index_position n i = Some (Z.to_nat i).
Proof.
  intros Hi. unfold index_position.
  destruct (Z.ltb_spec i 0); [lia|].
  destruct (Z.leb_spec 0 i); [|lia].
  destruct (Z.ltb_spec i n); [done | lia].
Qed.

Lemma getitem_lookup {A : Type} (l : list A) (i : Z) (x : A) :
  0 <= i -> l !! Z.to_nat i = Some x -> getitem l i = Returns x.
Proof.
  intros Hi Hx. unfold getitem.
  rewrite index_position_in_range.
  - by rewrite Hx.
  - apply lookup_lt_Some in Hx. unfold len. lia.
Qed.

Lemma getitem_in_range {A : Type} (l : list A) (i : Z) :
  0 <= i < len l -> exists x, l !! Z.to_nat i = Some x /\ getitem l i = Returns x.
Proof.
  intros Hi. destruct (lookup_lt_is_Some_2 l (Z.to_nat i)) as [x Hx].
  - unfold len in Hi. lia.
  - exists x. split; [done|]. apply getitem_lookup; [lia | done].
Qed.

Lemma setitem_in_range {A : Type} (l : list A) (i : Z) (x : A) :
  0 <= i < len l -> setitem l i x = Returns (<[Z.to_nat i := x]> l).
Proof.
  intros Hi. unfold setitem. by rewrite index_position_in_range.
Qed.

Lemma py_mod_nonzero (a b : Z) : b <> 0 -> py_mod a b = Returns (a mod b).
Proof. intros Hb. unfold py_mod. by destruct (Z.eqb_spec b 0). Qed.

Lemma to_bytes_4_big_in_range (n : Z) :
  0 <= n < 2 ^ 32 -> to_bytes_4_big n = Returns (be32 n).
Proof.
  intros Hn. unfold to_bytes_4_big.
  destruct (Z.ltb_spec n 0); [lia|].
  destruct (Z.leb_spec (2 ^ 32) n); [lia | done].
Qed.

Lemma elem_of_range (n i : Z) : i ∈ range n <-> 0 <= i < n.
Proof.
  unfold range. rewrite list_elem_of_fmap. split.
  - intros (k & -> & Hk). apply elem_of_seq in Hk. lia.
  - intros Hi. exists (Z.to_nat i). split; [lia|]. apply elem_of_seq. lia.
Qed.

Lemma slice_to_all {A : Type} (l : list A) (stop : Z) :
  len l <= stop -> slice_to l stop = l.
Proof.
  intros Hstop. unfold slice_to. pose proof (len_nonneg l).
  destruct (Z.ltb_spec stop 0); [lia|].
  apply take_ge. unfold len in *. lia.
Qed.

Lemma slice_to_zero {A : Type} (l : list A) : slice_to l 0 = [].
Proof. reflexivity. Qed.

Lemma length_slice_to_negative {A : Type} (l : list A) (stop : Z) :
  stop < 0 -> len (slice_to l stop) = Z.max 0 (len l + stop).
Proof.
  intros Hstop. unfold slice_to. destruct (Z.ltb_spec stop 0); [|lia].
  unfold len. rewrite length_take. lia.
Qed.

Lemma length_string_of_list_ascii (l : list ascii) :
  String.length (string_of_list_ascii l) = length l.
Proof. induction l as [|c l IH]; simpl; [done | by rewrite IH]. Qed.

Lemma chars_string_of_list_ascii (l : list ascii) :
  chars (string_of_list_ascii l) = l.
Proof. apply list_ascii_of_string_of_list_ascii. Qed.

(** ** Character selection *)

Lemma length_chars (s : string) : length (chars s) = String.length s.
Proof. induction s as [|c s IH]; simpl; [done | by rewrite IH]. Qed.

Lemma len_chars (s : string) : len (chars s) = str_len s.
Proof. unfold len, str_len. by rewrite length_chars. Qed.

Lemma pick_lookup (char_set : string) (v : Z) :
  0 < str_len char_set ->
  chars char_set !! Z.to_nat (v mod str_len char_set) = Some (pick char_set v).
Proof.
  intros Hlen.
  pose proof (Z.mod_pos_bound v (str_len char_set) Hlen) as Hmod.
  destruct (lookup_lt_is_Some_2 (chars char_set) (Z.to_nat (v mod str_len char_set)))
    as [c Hc].
  - rewrite length_chars. unfold str_len in *. lia.
  - unfold pick. by rewrite (nth_lookup_Some _ _ _ _ Hc).
Qed.

Lemma pick_elem_of (char_set : string) (v : Z) :
  0 < str_len char_set -> pick char_set v ∈ chars char_set.
Proof.
  intros Hlen. apply list_elem_of_lookup. eexists. by apply pick_lookup.
Qed.

(** [char_set[v % len(char_set)]] never fails on a non-empty set. *)
Lemma select_char (char_set : string) (v : Z) :
  0 < str_len char_set ->
  (char_index ← py_mod v (str_len char_set); str_getitem char_set char_index)
  = Returns (pick char_set v).
Proof.
  intros Hlen. rewrite py_mod_nonzero by lia. simpl.
  unfold str_getitem. apply getitem_lookup.
  - pose proof (Z.mod_pos_bound v (str_len char_set) Hlen). lia.
  - by apply pick_lookup.
Qed.

Lemma bytes_getitem_lookup (key_material : list byte) (i : nat) (b : byte) :
  key_material !! i = Some b ->
  bytes_getitem key_material (Z.of_nat i) = Returns (byte_val b).
Proof.
  intros Hb. unfold bytes_getitem.
  rewrite (getitem_lookup _ _ b); [done | lia | by rewrite Nat2Z.id].
Qed.

Lemma str_len_all_chars : str_len PasswordGenerator.all_chars = 88.
Proof. reflexivity. Qed.

Lemma char_sets_nonempty (char_set : string) :
  char_set ∈ PasswordGenerator.char_sets -> 0 < str_len char_set.
Proof.
  unfold PasswordGenerator.char_sets. rewrite !elem_of_cons, elem_of_nil.
  intros [->|[->|[->|[->|[]]]]]; reflexivity.
Qed.

Lemma str_getitem_pick (char_set : string) (v : Z) :
  0 < str_len char_set ->
  str_getitem char_set (v mod str_len char_set) = Returns (pick char_set v).
Proof.
  intros Hlen. unfold str_getitem. apply getitem_lookup.
  - pose proof (Z.mod_pos_bound v (str_len char_set) Hlen). lia.
  - by apply pick_lookup.
Qed.

(** Reduce the sequencing of a computation whose first part has returned. *)
Ltac run := cbn [mbind outcome_bind].

(** ** SHA-256 digests have 32 bytes *)

Lemma length_sha256 (msg : list byte) : length (SHA256.sha256 msg) = 32%nat.
Proof.
  unfold SHA256.sha256, SHA256.digest_of_state.
  destruct (foldl _ _ _) as [[[[[[[a b] c] d] e] f] g] h]. reflexivity.
Qed.

(** ** Step 1 *)

Section Mapper.

Import PasswordGenerator.

Variable key_material : list byte.

Lemma step1_loop (sets : list string) :
  (forall char_set, char_set ∈ sets -> 0 < str_len char_set) ->
  forall (k : nat) (p : list ascii),
    for_each sets
      (fun char_set '(password, key_index) =>
         if key_index <? len key_material then
           b ← bytes_getitem key_material key_index;
           char_index ← py_mod b (str_len char_set);
           c ← str_getitem char_set char_index;
           Returns (Next (password ++ [c], key_index + 1))
         else Returns (Next (password, key_index)))
      (p, Z.of_nat k)
    = Returns
        (p ++ zip_with (fun char_set b => pick char_set (byte_val b))
                sets (drop k key_material),
         Z.of_nat k
         + len (zip_with (fun char_set b => pick char_set (byte_val b))
                  sets (drop k key_material))).
Proof.
  induction sets as [|s sets IH]; intros Hne k p.
  - simpl. rewrite app_nil_r. unfold len. simpl. do 2 f_equal. lia.
  - assert (0 < str_len s) as Hs by (apply Hne; left).
    assert (forall s', s' ∈ sets -> 0 < str_len s') as Hne'
      by (intros s' Hs'; apply Hne; by right).
    simpl for_each.
    destruct (Z.ltb_spec (Z.of_nat k) (len key_material)) as [Hk|Hk].
    + destruct (lookup_lt_is_Some_2 key_material k) as [b Hb];
        [unfold len in Hk; lia|].
      rewrite (bytes_getitem_lookup _ _ _ Hb). simpl.
      rewrite py_mod_nonzero by lia. simpl.
      rewrite str_getitem_pick by done. simpl.
      replace (Z.of_nat k + 1) with (Z.of_nat (S k)) by lia.
      rewrite IH by done.
      rewrite (drop_S _ _ _ Hb). simpl.
      rewrite <- app_assoc. simpl. do 2 f_equal.
      unfold len. simpl. lia.
    + simpl. rewrite IH by done.
      rewrite drop_ge by (unfold len in Hk; lia).
      by rewrite !zip_with_nil_r.
Qed.

Lemma step1_returns :
  step1 key_material ([], 0)
  = Returns (class_prefix key_material, len (class_prefix key_material)).
Proof.
  unfold step1. apply (step1_loop char_sets char_sets_nonempty 0 []).
Qed.

Lemma length_class_prefix :
  length (class_prefix key_material) = (4 `min` length key_material)%nat.
Proof. unfold class_prefix. by rewrite length_zip_with. Qed.

(** ** Step 2 *)

Lemma step2_returns (length : Z) (p : list ascii) (k : nat) :
  exists p',
    step2 (List.length key_material) key_material length (p, Z.of_nat k)
    = Returns (p ++ p', Z.of_nat k + len p')
    /\ len p' = Z.max 0 (Z.min (length - len p) (len key_material - Z.of_nat k)).
Proof.
  unfold step2.
  set (bound := Z.max 0 (Z.min (length - len p) (len key_material - Z.of_nat k))).
  destruct (while_returns
    (fun '(password, key_index) =>
       (len password <? length) && (key_index <? len key_material))
    (fun '(password, key_index) =>
       b ← bytes_getitem key_material key_index;
       char_index ← py_mod b (str_len all_chars);
       c ← str_getitem all_chars char_index;
       Returns (password ++ [c], key_index + 1))
    (fun '(q, j) => exists q', q = p ++ q' /\ j = Z.of_nat k + len q' /\ len q' <= bound)
    (fun '(q, j) => Z.to_nat (len key_material - j)))
    with (fuel := List.length key_material) (s := (p, Z.of_nat k))
    as ([q j] & Hrun & (q' & -> & -> & Hbound) & Hexit).
  - intros [q j] (q' & -> & -> & Hbound) Hcond.
    apply andb_true_iff in Hcond as [Hlen Hidx].
    apply Z.ltb_lt in Hlen, Hidx. rewrite len_app in Hlen.
    pose proof (len_nonneg q') as Hq'.
    destruct (lookup_lt_is_Some_2 key_material (k + Z.to_nat (len q'))) as [b Hb];
      [unfold len in *; lia|].
    replace (Z.of_nat k + len q') with (Z.of_nat (k + Z.to_nat (len q'))) by lia.
    rewrite (bytes_getitem_lookup _ _ _ Hb). run.
    rewrite py_mod_nonzero by (rewrite str_len_all_chars; lia). run.
    rewrite str_getitem_pick by (rewrite str_len_all_chars; lia). run.
    eexists. split; [reflexivity|]. split.
    + exists (q' ++ [pick all_chars (byte_val b)]).
      rewrite app_assoc, len_app. split; [done|]. split.
      * unfold len. simpl. lia.
      * unfold bound, len in *. simpl. lia.
    + unfold len in *. lia.
  - exists []. rewrite app_nil_r. unfold bound, len. simpl. split; [done|]. lia.
  - unfold len. lia.
  - exists q'. split; [done|].
    apply andb_false_iff in Hexit. rewrite !Z.ltb_ge, len_app in Hexit.
    pose proof (len_nonneg q'). unfold bound in *. lia.
Qed.

(** ** Step 3 *)

Lemma round_loop (length : Z) (extended_key : list byte) (password : list ascii) :
  for_each extended_key
    (fun b password =>
       if len password >=? length then Returns (Break password)
       else
         char_index ← py_mod (byte_val b) (str_len all_chars);
         c ← str_getitem all_chars char_index;
         Returns (Next (password ++ [c])))
    password
  = Returns (password
             ++ take (Z.to_nat (length - len password))
                  (map (fun b => pick all_chars (byte_val b)) extended_key)).
Proof.
  revert password.
  induction extended_key as [|b bs IH]; intros password; cbn [for_each map].
  - by rewrite take_nil, app_nil_r.
  - rewrite Z.geb_leb. destruct (Z.leb_spec length (len password)) as [Hfull|Hshort].
    + run. replace (Z.to_nat (length - len password)) with 0%nat by lia.
      by rewrite app_nil_r.
    + rewrite py_mod_nonzero by (rewrite str_len_all_chars; lia). run.
      rewrite str_getitem_pick by (rewrite str_len_all_chars; lia). run.
      rewrite IH, len_app.
      change (len [pick all_chars (byte_val b)]) with 1.
      replace (Z.to_nat (length - len password))
        with (S (Z.to_nat (length - (len password + 1)))) by lia.
      cbn [firstn]. by rewrite <- app_assoc.
Qed.

Lemma extension_round_returns (length : Z) (password : list ascii) :
  len password < 2 ^ 32 ->
  extension_round key_material length password
  = Returns (spec_extension_round 88 key_material length password).
Proof.
  intros Hlen. unfold extension_round.
  rewrite to_bytes_4_big_in_range by (pose proof (len_nonneg password); lia).
  run. by rewrite round_loop.
Qed.

Lemma extension_round_raises (length : Z) (password : list ascii) :
  2 ^ 32 <= len password ->
  extension_round key_material length password
  = Raises (OverflowError "int too big to convert").
Proof.
  intros Hlen. unfold extension_round, to_bytes_4_big.
  destruct (Z.ltb_spec (len password) 0); [lia|].
  destruct (Z.leb_spec (2 ^ 32) (len password)); [done | lia].
Qed.

Lemma len_spec_extension_round (modulus length : Z) (password : list ascii) :
  len (spec_extension_round modulus key_material length password)
  = len password + Z.max 0 (Z.min 32 (length - len password)).
Proof.
  unfold spec_extension_round. rewrite len_app. f_equal.
  unfold len. rewrite length_take, length_map, length_sha256. lia.
Qed.

Lemma step3_returns_or_raises (length : Z) (p : list ascii) (fuel : nat) :
  (Z.to_nat (length - len p) <= fuel)%nat ->
  (exists p', step3 fuel key_material length p = Returns (p ++ p')
              /\ len (p ++ p') = Z.max (len p) length)
  \/ (exists e, step3 fuel key_material length p = Raises e /\ 2 ^ 32 < length).
Proof.
  intros Hfuel. unfold step3.
  destruct (while_returns_or_raises
    (fun password => len password <? length)
    (extension_round key_material length)
    (fun q => exists q', q = p ++ q' /\ len q <= Z.max (len p) length)
    (fun _ => 2 ^ 32 < length)
    (fun q => Z.to_nat (length - len q)))
    with (fuel := fuel) (s := p)
    as [(q & Hrun & (q' & -> & Hbound) & Hexit)|(e & Hrun & He)].
  - intros q (q' & -> & Hbound) Hcond. apply Z.ltb_lt in Hcond.
    destruct (Z.lt_ge_cases (len (p ++ q')) (2 ^ 32)) as [Hsmall|Hbig].
    + left. rewrite extension_round_returns by done.
      eexists. split; [reflexivity|].
      pose proof (len_spec_extension_round 88 length (p ++ q')) as Hlen.
      split; [|lia].
      unfold spec_extension_round in *. rewrite <- app_assoc.
      eexists. split; [reflexivity|]. rewrite app_assoc. lia.
    + right. rewrite extension_round_raises by done.
      eexists. split; [reflexivity|]. lia.
  - intros q _ Hcond. apply Z.ltb_lt in Hcond. lia.
  - exists []. rewrite app_nil_r. split; [done|]. lia.
  - lia.
  - left. exists q'. split; [done|]. apply Z.ltb_ge in Hexit.
    rewrite len_app in *. pose proof (len_nonneg q'). lia.
  - right. eauto.
Qed.

Lemma step3_returns (length : Z) (p : list ascii) (fuel : nat) :
  length <= 2 ^ 32 ->
  (Z.to_nat (length - len p) <= fuel)%nat ->
  exists p', step3 fuel key_material length p = Returns (p ++ p')
             /\ len (p ++ p') = Z.max (len p) length.
Proof.
  intros Hlength Hfuel.
  destruct (step3_returns_or_raises length p fuel Hfuel) as [H|(e & _ & H)];
    [done | lia].
Qed.

(** ** Steps 1 to 3 together *)

Lemma fill_buffer_returns_or_raises (length : Z) :
  (exists p', fill_buffer key_material length
              = Returns (class_prefix key_material ++ p')
              /\ len (class_prefix key_material ++ p')
                 = Z.max (len (class_prefix key_material)) length)
  \/ (exists e, fill_buffer key_material length = Raises e /\ 2 ^ 32 < length).
Proof.
  unfold fill_buffer. rewrite step1_returns. run.
  destruct (step2_returns length (class_prefix key_material)
              (List.length (class_prefix key_material))) as (p' & Hrun & Hlen).
  fold (len (class_prefix key_material)) in Hrun. rewrite Hrun. run.
  pose proof (len_nonneg (class_prefix key_material)) as Hprefix.
  destruct (step3_returns_or_raises length (class_prefix key_material ++ p')
              (Z.to_nat length)) as [(p'' & Hrun3 & Hlen3)|(e & Hrun3 & He)].
  - rewrite len_app. lia.
  - left. exists (p' ++ p''). rewrite app_assoc. split; [done|].
    rewrite Hlen3, len_app. lia.
  - right. eauto.
Qed.

Lemma fill_buffer_returns (length : Z) :
  length <= 2 ^ 32 ->
  exists p', fill_buffer key_material length
             = Returns (class_prefix key_material ++ p')
             /\ len (class_prefix key_material ++ p')
                = Z.max (len (class_prefix key_material)) length.
Proof.
  intros Hlength.
  destruct (fill_buffer_returns_or_raises length) as [H|(e & _ & H)]; [done | lia].
Qed.

(** For a length of at most 4 (zero and negative lengths included) the
    buffer is the class prefix alone. *)
Lemma fill_buffer_short (length : Z) :
  length <= len (class_prefix key_material) ->
  fill_buffer key_material length = Returns (class_prefix key_material).
Proof.
  intros Hlength.
  destruct (fill_buffer_returns length) as (p' & Hrun & Hlen).
  - pose proof (length_class_prefix). unfold len in Hlength. lia.
  - rewrite len_app in Hlen. destruct p' as [|c p'].
    + by rewrite app_nil_r in Hrun.
    + unfold len in Hlen, Hlength. simpl in Hlen. lia.
Qed.

(** ** Step 4 *)

Lemma length_swap {A : Type} (l : list A) (i j : nat) :
  length (swap l i j) = length l.
Proof.
  unfold swap. destruct (l !! i), (l !! j); try done.
  by rewrite !length_insert.
Qed.

Lemma swap_Permutation {A : Type} (l : list A) (i j : nat) : swap l i j ≡ₚ l.
Proof.
  unfold swap. destruct (l !! i) eqn:Hi, (l !! j) eqn:Hj; try done.
  by apply Permutation_insert_swap.
Qed.

Lemma length_spec_phase_D (length : Z) (buf : list ascii) :
  List.length (spec_phase_D key_material length buf) = List.length buf.
Proof.
  unfold spec_phase_D. generalize (seq 0 (Z.to_nat length)) as idxs.
  intros idxs. revert buf. induction idxs as [|i idxs IH]; intros buf; simpl; [done|].
  rewrite IH. destruct (i <? 64)%nat; [apply length_swap | done].
Qed.

Lemma spec_phase_D_Permutation (length : Z) (buf : list ascii) :
  spec_phase_D key_material length buf ≡ₚ buf.
Proof.
  unfold spec_phase_D. generalize (seq 0 (Z.to_nat length)) as idxs.
  intros idxs. revert buf. induction idxs as [|i idxs IH]; intros buf; simpl; [done|].
  rewrite IH. destruct (i <? 64)%nat; [apply swap_Permutation | done].
Qed.

Hypothesis key_material_64 : List.length key_material = 64%nat.

Lemma step4_loop (n : Z) (idxs : list nat) :
  (forall i, i ∈ idxs -> Z.of_nat i < n) ->
  forall password : list ascii, len password = n ->
    for_each (map Z.of_nat idxs)
      (fun (i : Z) (password : list ascii) =>
         if i <? len key_material then
           b ← bytes_getitem key_material i;
           j ← py_mod b (len password);
           pj ← getitem password j;
           pi ← getitem password i;
           password ← setitem password i pj;
           password ← setitem password j pi;
           Returns (Next password)
         else Returns (Next password))
      password
    = Returns
        (foldl (fun buf i =>
                  if (i <? 64)%nat
                  then swap buf i (Z.to_nat (key_byte key_material i mod n))
                  else buf)
               password idxs).
Proof.
  induction idxs as [|i idxs IH]; intros Hidx password Hlen; [done|].
  assert (Z.of_nat i < n) as Hi by (apply Hidx; left).
  assert (forall i', i' ∈ idxs -> Z.of_nat i' < n) as Hidx'
    by (intros i' Hi'; apply Hidx; by right).
  assert (len key_material = 64) as Hkm by (unfold len; lia).
  cbn [map for_each foldl].
  destruct (Nat.ltb_spec i 64) as [Hlt|Hge].
  - destruct (Z.ltb_spec (Z.of_nat i) (len key_material)) as [_|]; [|lia].
    destruct (lookup_lt_is_Some_2 key_material i) as [b Hb]; [lia|].
    rewrite (bytes_getitem_lookup _ _ _ Hb). run.
    rewrite py_mod_nonzero by lia. run. rewrite Hlen.
    assert (key_byte key_material i = byte_val b) as Hkey
      by (unfold key_byte; by rewrite Hb).
    rewrite Hkey.
    pose proof (Z.mod_pos_bound (byte_val b) n ltac:(lia)) as Hj.
    destruct (getitem_in_range password (byte_val b mod n) ltac:(lia))
      as (pj & Hpj & ->). run.
    destruct (getitem_in_range password (Z.of_nat i) ltac:(lia))
      as (pi & Hpi & ->). run.
    rewrite setitem_in_range by lia. run.
    rewrite setitem_in_range by (unfold len; rewrite length_insert; fold (len password); lia).
    run. rewrite Nat2Z.id in *.
    rewrite IH; [|done|unfold len; by rewrite !length_insert].
    unfold swap. by rewrite Hpi, Hpj.
  - destruct (Z.ltb_spec (Z.of_nat i) (len key_material)) as [|_]; [lia|].
    run. by rewrite IH.
Qed.

Lemma step4_returns (password : list ascii) :
  step4 key_material password
  = Returns (spec_phase_D key_material (len password) password).
Proof.
  unfold step4, range, spec_phase_D. apply step4_loop; [|done].
  intros i Hi. apply elem_of_seq in Hi. unfold len in *. lia.
Qed.

(** ** The whole mapper *)

Lemma len_class_prefix_64 : len (class_prefix key_material) = 4.
Proof. unfold len. rewrite length_class_prefix, key_material_64. reflexivity. Qed.

Lemma _map_to_password_returns (length : Z) :
  length <= 2 ^ 32 ->
  exists buf,
    fill_buffer key_material length = Returns buf
    /\ len buf = Z.max 4 length
    /\ take 4 buf = class_prefix key_material
    /\ _map_to_password key_material length
       = Returns (string_of_list_ascii
                    (slice_to (spec_phase_D key_material (Z.max 4 length) buf) length)).
Proof.
  intros Hlength.
  destruct (fill_buffer_returns length Hlength) as (p' & Hrun & Hlen).
  rewrite len_class_prefix_64 in Hlen.
  eexists. split; [exact Hrun|]. split; [exact Hlen|]. split.
  - apply take_app_length'. pose proof len_class_prefix_64 as H. unfold len in H. lia.
  - unfold _map_to_password. rewrite Hrun. run. rewrite step4_returns. run.
    by rewrite Hlen.
Qed.

(** The outcome is never [OutOfFuel]: the two [while] loops have the
    fuel they need, whatever the requested length. *)
Lemma _map_to_password_terminates (length : Z) :
  (exists password, _map_to_password key_material length = Returns password)
  \/ (exists e, _map_to_password key_material length = Raises e).
Proof.
  unfold _map_to_password.
  destruct (fill_buffer_returns_or_raises length) as [(p' & -> & _)|(e & -> & _)].
  - left. run. rewrite step4_returns. run. eauto.
  - right. eauto.
Qed.

End Mapper.

(** ** The key deriver *)

Lemma length_xor_bytes (xs ys : list byte) :
  length xs = length ys -> length (xor_bytes xs ys) = length xs.
Proof. intros H. unfold xor_bytes. by rewrite length_zip_with_l_eq. Qed.

Lemma length_hmac_sha256 (key msg : list byte) :
  length (hmac SHA256_algorithm key msg) = 32%nat.
Proof. unfold hmac. cbn [digest SHA256_algorithm]. apply length_sha256. Qed.

Lemma length_pbkdf2_block (password salt : list byte) (c : N) (i : Z) :
  length (pbkdf2_block (hmac SHA256_algorithm) password salt c i) = 32%nat.
Proof.
  unfold pbkdf2_block.
  apply (N.iter_invariant (c - 1) _ _
           (fun ut => length ut.1 = 32%nat /\ length ut.2 = 32%nat)).
  - intros [u t] [Hu Ht]. cbn [fst snd] in *. split.
    + apply length_hmac_sha256.
    + rewrite length_xor_bytes; [done|]. by rewrite length_hmac_sha256.
  - cbn [fst snd]. split; apply length_hmac_sha256.
Qed.

(** A derived key of 64 bytes from 32-byte blocks is the first two blocks. *)
Lemma pbkdf2_two_blocks (prf : list byte -> list byte -> list byte)
    (password salt : list byte) (c : N) :
  (forall i, length (pbkdf2_block prf password salt c i) = 32%nat) ->
  pbkdf2 prf 32 password salt c 64
  = pbkdf2_block prf password salt c 1 ++ pbkdf2_block prf password salt c 2.
Proof.
  intros Hblock. unfold pbkdf2.
  change ((64 + 32 - 1) / 32)%nat with 2%nat.
  cbn [seq flat_map]. rewrite app_nil_r.
  apply take_ge. rewrite length_app, !Hblock. lia.
Qed.

Lemma _generate_pbkdf2_spec (input_data : string) :
  PasswordGenerator._generate_pbkdf2 input_data = spec_key_deriver input_data.
Proof.
  unfold PasswordGenerator._generate_pbkdf2, derive, spec_key_deriver, encode.
  cbn [algorithm kdf_length salt iterations digest_size SHA256_algorithm].
  unfold DEFAULT_PBKDF2_ITERATIONS.
  rewrite pbkdf2_two_blocks; [reflexivity|].
  intros i. apply length_pbkdf2_block.
Qed.

Lemma length__generate_pbkdf2 (input_data : string) :
  length (PasswordGenerator._generate_pbkdf2 input_data) = 64%nat.
Proof.
  rewrite _generate_pbkdf2_spec. unfold spec_key_deriver.
  by rewrite length_app, !length_pbkdf2_block.
Qed.

(** ** The combined input *)

Lemma append_assoc (s1 s2 s3 : string) : (s1 +:+ s2) +:+ s3 = s1 +:+ (s2 +:+ s3).
Proof.
  induction s1 as [|c s1 IH]; [reflexivity|]. exact (f_equal (String c) IH).
Qed.

Lemma join_cons (sep k k' : string) (ks : list string) :
  join sep (k :: k' :: ks) = k +:+ sep +:+ join sep (k' :: ks).
Proof. reflexivity. Qed.

Lemma spec_combined_input_cons (secret k : string) (ks : list string) :
  spec_combined_input secret (k :: ks) = secret +:+ "|" +:+ join "|" (k :: ks).
Proof.
  unfold spec_combined_input. revert secret k.
  induction ks as [|k' ks IH]; intros secret k; [done|].
  rewrite join_cons. change (foldl ?f secret (k :: k' :: ks))
    with (foldl f (secret +:+ "|" +:+ k) (k' :: ks)).
  by rewrite IH, !append_assoc.
Qed.

(** ** The orchestrator *)

(** Past the two validations, the orchestrator wraps the generator. *)
Lemma core_generate_valid (hw : HardwareDetector) (master_key : string)
    (user_keys : list string) (length : Z) (use_default_fingerprint : bool) :
  master_key <> "" \/ use_default_fingerprint = true ->
  user_keys <> [] ->
  PasswordCore.generate_password hw master_key user_keys length use_default_fingerprint
  = try_except
      (password ←
         PasswordGenerator._map_to_password
           (PasswordGenerator._generate_pbkdf2
              (PasswordGenerator.combined_input
                 (if use_default_fingerprint then get_default_fingerprint hw
                  else master_key) user_keys))
           length;
       Returns (success_result password
                  (if use_default_fingerprint then "default_fingerprint"
                   else "manual_master_key")
                  (len user_keys)))
      (fun e => Returns (failure_result (str_of_exception e))).
Proof.
  intros Hsecret Hkeys. unfold PasswordCore.generate_password.
  assert (negb (str_truthy master_key) && negb use_default_fingerprint = false) as ->.
  { destruct Hsecret as [Hmk| ->]; [|apply andb_false_r].
    destruct master_key; [done | reflexivity]. }
  assert (negb (list_truthy user_keys) = false) as ->
    by (by destruct user_keys).
  by destruct use_default_fingerprint.
Qed.

Lemma core_generate_success (hw : HardwareDetector) (master_key : string)
    (user_keys : list string) (length : Z) (use_default_fingerprint : bool) :
  master_key <> "" \/ use_default_fingerprint = true ->
  user_keys <> [] ->
  length <= 2 ^ 32 ->
  let key_material :=
    PasswordGenerator._generate_pbkdf2
      (PasswordGenerator.combined_input
         (if use_default_fingerprint then get_default_fingerprint hw else master_key)
         user_keys) in
  exists buf,
    PasswordGenerator.fill_buffer key_material length = Returns buf
    /\ len buf = Z.max 4 length
    /\ take 4 buf = class_prefix key_material
    /\ PasswordCore.generate_password hw master_key user_keys length
         use_default_fingerprint
       = Returns (success_result
                    (string_of_list_ascii
                       (slice_to (spec_phase_D key_material (Z.max 4 length) buf) length))
                    (if use_default_fingerprint then "default_fingerprint"
                     else "manual_master_key")
                    (len user_keys)).
Proof.
  intros Hsecret Hkeys Hlength key_material.
  rewrite core_generate_valid by done. fold key_material.
  assert (List.length key_material = 64%nat) as Hkm
    by apply length__generate_pbkdf2.
  clearbody key_material.
  destruct (_map_to_password_returns key_material Hkm length Hlength)
    as (buf & Hbuf & Hlen & Hprefix & ->).
  exists buf. by repeat split.
Qed.

Lemma core_generate_structured (hw : HardwareDetector) (master_key : string)
    (user_keys : list string) (length : Z) (use_default_fingerprint : bool) :
  (exists password source,
     PasswordCore.generate_password hw master_key user_keys length
       use_default_fingerprint
     = Returns (success_result password source (len user_keys)))
  \/ (exists msg,
        PasswordCore.generate_password hw master_key user_keys length
          use_default_fingerprint
        = Returns (failure_result msg)).
Proof.
  destruct (decide (master_key <> "" \/ use_default_fingerprint = true)) as [Hsecret|Hsecret].
  - destruct user_keys as [|k ks] eqn:Hkeys.
    + right. exists MissingKeywords. unfold PasswordCore.generate_password.
      assert (negb (str_truthy master_key) && negb use_default_fingerprint = false) as ->.
      { destruct Hsecret as [Hmk| ->]; [|apply andb_false_r].
        destruct master_key; [done | reflexivity]. }
      reflexivity.
    + rewrite <- Hkeys. rewrite core_generate_valid by (done || by subst).
      set (key_material := PasswordGenerator._generate_pbkdf2 _).
      assert (List.length key_material = 64%nat) as Hkm
        by apply length__generate_pbkdf2.
      clearbody key_material.
      destruct (_map_to_password_terminates key_material Hkm length)
        as [[password ->]|[e ->]].
      * left. eauto.
      * right. eauto.
  - right. exists MissingSecret. unfold PasswordCore.generate_password.
    destruct master_key; [|exfalso; apply Hsecret; by left].
    destruct use_default_fingerprint; [exfalso; apply Hsecret; by right|].
    reflexivity.
Qed.

(** ** Result dictionaries *)

Lemma success_result_lookup (password source : string) (keys_used : Z) :
  let r := success_result password source keys_used in
  r !! "success" = Some (VBool true)
  /\ r !! "password" = Some (VStr password)
  /\ r !! "length" = Some (VInt (str_len password))
  /\ r !! "source" = Some (VStr source)
  /\ r !! "keys_used" = Some (VInt keys_used)
  /\ r !! "error" = None.
Proof. by repeat split. Qed.

Lemma failure_result_lookup (msg : string) :
  let r := failure_result msg in
  r !! "success" = Some (VBool false)
  /\ r !! "error" = Some (VStr msg)
  /\ r !! "password" = None.
Proof. by repeat split. Qed.

Lemma success_result_not_failure (password source : string) (keys_used : Z) (msg : string) :
  success_result password source keys_used <> failure_result msg.
Proof.
  intros H. apply (f_equal (fun r : gmap string value => r !! "success")) in H.
  destruct (success_result_lookup password source keys_used) as [Hs _].
  destruct (failure_result_lookup msg) as [Hf _].
  cbv zeta in Hs, Hf. rewrite Hs, Hf in H. discriminate.
Qed.

Lemma fails_with_failure_result (msg : string) : fails_with (failure_result msg) msg.
Proof. by repeat split. Qed.

Lemma success_result_never_fails (password source : string) (keys_used : Z) (msg : string) :
  ~ fails_with (success_result password source keys_used) msg.
Proof. intros (H & _). discriminate H. Qed.

Lemma returned_success_never_fails (o : outcome (gmap string value))
    (password source : string) (keys_used : Z) (r : gmap string value) (msg : string) :
  o = Returns (success_result password source keys_used) ->
  o = Returns r ->
  ~ fails_with r msg.
Proof. intros -> [= <-]. apply success_result_never_fails. Qed.

(** ** Class coverage of a shuffled buffer *)

Lemma contains_from_elem_of (char_set : string) (l : list ascii) (c : ascii) :
  c ∈ l -> c ∈ chars char_set ->
  contains_from char_set (string_of_list_ascii l) = true.
Proof.
  intros Hl Hc. unfold contains_from. rewrite chars_string_of_list_ascii.
  apply existsb_exists. exists c. split; [by apply list_elem_of_In|].
  by apply bool_decide_eq_true.
Qed.

Lemma class_prefix_64 (key_material : list byte) :
  length key_material = 64%nat ->
  exists b0 b1 b2 b3,
    class_prefix key_material
    = [pick UPPERCASE_CHARS (byte_val b0); pick LOWERCASE_CHARS (byte_val b1);
       pick DIGIT_CHARS (byte_val b2); pick SYMBOL_CHARS (byte_val b3)].
Proof.
  intros Hkm. destruct key_material as [|b0 [|b1 [|b2 [|b3 rest]]]]; try discriminate.
  by exists b0, b1, b2, b3.
Qed.

Lemma covers_all_classes_shuffled (key_material : list byte) (buf l : list ascii) :
  length key_material = 64%nat ->
  take 4 buf = class_prefix key_material ->
  l ≡ₚ buf ->
  covers_all_classes (string_of_list_ascii l) = true.
Proof.
  intros Hkm Hprefix Hperm.
  destruct (class_prefix_64 key_material Hkm) as (b0 & b1 & b2 & b3 & Hclasses).
  assert (forall c, c ∈ class_prefix key_material -> c ∈ l) as Hin.
  { intros c Hc. rewrite Hperm, <- (take_drop 4 buf), Hprefix.
    apply elem_of_app. by left. }
  rewrite Hclasses in Hin. unfold covers_all_classes.
  rewrite !andb_true_iff. repeat split.
  - apply (contains_from_elem_of _ _ (pick UPPERCASE_CHARS (byte_val b0))).
    + apply Hin. set_solver.
    + by apply pick_elem_of.
  - apply (contains_from_elem_of _ _ (pick LOWERCASE_CHARS (byte_val b1))).
    + apply Hin. set_solver.
    + by apply pick_elem_of.
  - apply (contains_from_elem_of _ _ (pick DIGIT_CHARS (byte_val b2))).
    + apply Hin. set_solver.
    + by apply pick_elem_of.
  - apply (contains_from_elem_of _ _ (pick SYMBOL_CHARS (byte_val b3))).
    + apply Hin. set_solver.
    + by apply pick_elem_of.
Qed.

(** From the buffer of steps 1 to 3 to the returned password. *)
Lemma _map_to_password_of_buffer (key_material : list byte) (length : Z)
    (buf : list ascii) :
  List.length key_material = 64%nat ->
  PasswordGenerator.fill_buffer key_material length = Returns buf ->
  len buf = Z.max 4 length
  /\ take 4 buf = class_prefix key_material
  /\ PasswordGenerator._map_to_password key_material length
     = Returns (string_of_list_ascii
                  (slice_to (spec_phase_D key_material (len buf) buf) length)).
Proof.
  intros Hkm Hbuf.
  destruct (fill_buffer_returns_or_raises key_material length)
    as [(p' & Hrun & Hlen)|(e & Hrun & _)]; [|congruence].
  rewrite Hrun in Hbuf. injection Hbuf as <-.
  rewrite (len_class_prefix_64 key_material Hkm) in Hlen.
  pose proof (len_class_prefix_64 key_material Hkm) as H4.
  split; [done|]. split.
  - apply take_app_length'. unfold len in H4. lia.
  - unfold PasswordGenerator._map_to_password. rewrite Hrun. run.
    by rewrite (step4_returns key_material Hkm).
Qed.

Lemma slice_to_nonneg {A : Type} (l : list A) (stop : Z) :
  0 <= stop -> slice_to l stop = take (Z.to_nat stop) l.
Proof. intros H. unfold slice_to. by destruct (Z.ltb_spec stop 0); [lia|]. Qed.

(** The mapper at a length of zero or below: the class prefix, shuffled,
    cut by the slice. *)
Lemma _map_to_password_nonpositive (key_material : list byte) (length : Z) :
  List.length key_material = 64%nat ->
  length <= 0 ->
  let password :=
    string_of_list_ascii
      (slice_to (spec_phase_D key_material 4 (class_prefix key_material)) length) in
  PasswordGenerator._map_to_password key_material length = Returns password
  /\ str_len password = (if length =? 0 then 0 else Z.max 0 (4 + length)).
Proof.
  intros Hkm Hlength password. subst password.
  pose proof (len_class_prefix_64 key_material Hkm) as H4.
  assert (PasswordGenerator.fill_buffer key_material length
          = Returns (class_prefix key_material)) as Hbuf
    by (apply fill_buffer_short; lia).
  destruct (_map_to_password_of_buffer key_material length _ Hkm Hbuf) as (_ & _ & Hrun).
  rewrite H4 in Hrun. split; [exact Hrun|].
  unfold str_len. rewrite length_string_of_list_ascii.
  fold (len (slice_to (spec_phase_D key_material 4 (class_prefix key_material)) length)).
  destruct (Z.eqb_spec length 0) as [->|Hne].
  - by rewrite slice_to_zero.
  - rewrite length_slice_to_negative by lia.
    unfold len at 1. rewrite length_spec_phase_D.
    fold (len (class_prefix key_material)). lia.
Qed.

(** The orchestrator at a length of zero or below. *)
Lemma core_generate_nonpositive (hw : HardwareDetector) (master_key : string)
    (user_keys : list string) (length : Z) (use_default_fingerprint : bool) :
  length <= 0 ->
  master_key <> "" \/ use_default_fingerprint = true ->
  user_keys <> [] ->
  let key_material :=
    PasswordGenerator._generate_pbkdf2
      (PasswordGenerator.combined_input
         (if use_default_fingerprint then get_default_fingerprint hw else master_key)
         user_keys) in
  let password :=
    string_of_list_ascii
      (slice_to (spec_phase_D key_material 4 (class_prefix key_material)) length) in
  PasswordCore.generate_password hw master_key user_keys length use_default_fingerprint
  = Returns (success_result password
               (if use_default_fingerprint then "default_fingerprint"
                else "manual_master_key")
               (len user_keys))
  /\ str_len password = (if length =? 0 then 0 else Z.max 0 (4 + length)).
Proof.
  intros Hlength Hsecret Hkeys key_material.
  rewrite core_generate_valid by assumption. fold key_material.
  assert (List.length key_material = 64%nat) as Hkm by apply length__generate_pbkdf2.
  clearbody key_material. intros password.
  destruct (_map_to_password_nonpositive key_material length Hkm Hlength) as [Hrun Hlen].
  fold password in Hrun, Hlen. rewrite Hrun. by split.
Qed.

(** * The claims *)

(** C1. For every length in [8, 128] and every 64-byte key material the
    mapper returns a string of exactly [length] characters: steps 1 to 3
    leave a buffer of exactly [length] characters, and the final slice
    takes the first [length] characters of the shuffled buffer. *)
Theorem map_to_password_exact_length (key_material : list byte) (length : Z) :
  List.length key_material = 64%nat ->
  8 <= length <= 128 ->
  exists buf password,
    PasswordGenerator.fill_buffer key_material length = Returns buf
    /\ len buf = length
    /\ PasswordGenerator._map_to_password key_material length = Returns password
    /\ chars password = take (Z.to_nat length) (spec_phase_D key_material length buf)
    /\ str_len password = length.
Proof.
  intros Hkm Hlength.
  destruct (_map_to_password_returns key_material Hkm length ltac:(lia))
    as (buf & Hbuf & Hlen & _ & Hrun).
  replace (Z.max 4 length) with length in * by lia.
  exists buf. eexists. split; [done|]. split; [done|]. split; [exact Hrun|].
  rewrite chars_string_of_list_ascii, slice_to_nonneg by lia. split; [done|].
  unfold str_len. rewrite length_string_of_list_ascii, length_take, length_spec_phase_D.
  unfold len in Hlen. lia.
Qed.

Lemma map_to_password_exact_length_witness :
  List.length km_counting = 64%nat /\ 8 <= 8 <= 128
  /\ exists password,
       PasswordGenerator._map_to_password km_counting 8 = Returns password
       /\ str_len password = 8.
Proof.
  split; [reflexivity|]. split; [lia|].
  destruct (map_to_password_exact_length km_counting 8) as (buf & password & H);
    [reflexivity | lia |].
  exists password. tauto.
Defined.

(** C2. For every length of at least 4 and every 64-byte key material, the
    password the mapper returns contains an uppercase letter, a lowercase
    letter, a digit and a symbol of the 26-character symbol set; up to a
    length of 2^32 a password is returned. *)
Theorem map_to_password_class_coverage (key_material : list byte) (length : Z) :
  List.length key_material = 64%nat ->
  4 <= length ->
  (forall password,
     PasswordGenerator._map_to_password key_material length = Returns password ->
     covers_all_classes password = true)
  /\ (length <= 2 ^ 32 ->
      exists password,
        PasswordGenerator._map_to_password key_material length = Returns password
        /\ covers_all_classes password = true)
  /\ str_len SYMBOL_CHARS = 26.
Proof.
  intros Hkm Hlength.
  assert (forall password,
            PasswordGenerator._map_to_password key_material length = Returns password ->
            covers_all_classes password = true) as Hcover.
  { intros password Hrun.
    destruct (fill_buffer_returns_or_raises key_material length)
      as [(p' & Hbuf & _)|(e & Hbuf & _)].
    - destruct (_map_to_password_of_buffer key_material length _ Hkm Hbuf)
        as (Hlen & Hprefix & Hrun').
      rewrite Hrun' in Hrun. injection Hrun as <-.
      rewrite slice_to_all.
      + apply (covers_all_classes_shuffled key_material _ _ Hkm Hprefix).
        apply spec_phase_D_Permutation.
      + unfold len at 1. rewrite length_spec_phase_D.
        fold (len (class_prefix key_material ++ p')). lia.
    - unfold PasswordGenerator._map_to_password in Hrun.
      rewrite Hbuf in Hrun. discriminate. }
  split; [exact Hcover|]. split; [|reflexivity].
  intros Hmax.
  destruct (_map_to_password_returns key_material Hkm length Hmax)
    as (buf & _ & _ & _ & Hrun).
  eexists. split; [exact Hrun|]. by apply Hcover.
Qed.

Lemma map_to_password_class_coverage_witness :
  List.length km_ones = 64%nat /\ 4 <= 4
  /\ exists password,
       PasswordGenerator._map_to_password km_ones 4 = Returns password
       /\ covers_all_classes password = true.
Proof.
  split; [reflexivity|]. split; [lia|].
  destruct (map_to_password_class_coverage km_ones 4) as (_ & H & _);
    [reflexivity | lia |].
  apply H. lia.
Defined.

(** C3. For every combined input the key deriver returns exactly 64 bytes,
    computed by PBKDF2 with HMAC-SHA-256 as pseudorandom function, 200,000
    iterations, and as salt the 32-byte SHA-256 digest of the literal
    [ForgetYourpassword-v1-salt]. *)
Theorem key_deriver_is_pbkdf2_hmac_sha256 (combined_input : string) :
  PasswordGenerator._generate_pbkdf2 combined_input = spec_key_deriver combined_input
  /\ length (PasswordGenerator._generate_pbkdf2 combined_input) = 64%nat
  /\ DEFAULT_PBKDF2_ITERATIONS = 200000%N
  /\ length (SHA256.sha256 (list_byte_of_string "ForgetYourpassword-v1-salt")) = 32%nat.
Proof.
  split; [apply _generate_pbkdf2_spec|]. split; [apply length__generate_pbkdf2|].
  split; [reflexivity | apply length_sha256].
Qed.

(** C4. For every secret source and every non-empty keyword list, the
    combined input handed to the key deriver is the secret, a separator,
    and the keywords joined by the separator in the order supplied; a
    separator inside a keyword is kept as it is, so that such a keyword
    reads as two keywords. *)
Theorem combined_input_is_pipe_joined (secret_source : string) (keywords : list string)
    (length : Z) :
  keywords <> [] ->
  PasswordGenerator.combined_input secret_source keywords
  = spec_combined_input secret_source keywords
  /\ PasswordGenerator.combined_input secret_source keywords
     = secret_source +:+ "|" +:+ join "|" keywords
  /\ PasswordGenerator.generate_password secret_source keywords length
     = PasswordGenerator._map_to_password
         (PasswordGenerator._generate_pbkdf2
            (spec_combined_input secret_source keywords)) length
  /\ (forall k1 k2 ks,
        PasswordGenerator.combined_input secret_source ((k1 +:+ "|" +:+ k2) :: ks)
        = PasswordGenerator.combined_input secret_source (k1 :: k2 :: ks)).
Proof.
  intros Hne. destruct keywords as [|k ks]; [done|].
  assert (PasswordGenerator.combined_input secret_source (k :: ks)
          = spec_combined_input secret_source (k :: ks)) as Heq.
  { rewrite spec_combined_input_cons. unfold PasswordGenerator.combined_input.
    apply append_assoc. }
  split; [exact Heq|]. split.
  { unfold PasswordGenerator.combined_input. apply append_assoc. }
  split.
  { unfold PasswordGenerator.generate_password. rewrite Heq. reflexivity. }
  intros k1 k2 ks'. unfold PasswordGenerator.combined_input. f_equal.
  destruct ks' as [|k3 ks']; [reflexivity|].
  rewrite !join_cons. by rewrite !append_assoc.
Qed.

Lemma combined_input_is_pipe_joined_witness :
  ["alpha"; "beta"] <> []
  /\ PasswordGenerator.combined_input "anchor" ["alpha"; "beta"]
     = spec_combined_input "anchor" ["alpha"; "beta"].
Proof.
  split; [discriminate|].
  destruct (combined_input_is_pipe_joined "anchor" ["alpha"; "beta"] 16) as [H _];
    [discriminate | exact H].
Defined.

(** C5 as stated fails: the alphabet has 88 characters, and a digest byte
    selects its character modulo 88, not modulo 94. With the 64 bytes of
    [km_counting] consumed and a length of 70, the third digest byte, 99,
    gives [L] (index 11), where the claim gives [F] (index 5). *)
Lemma extension_round_not_modulo_94 :
  PasswordGenerator.fill_buffer km_counting 64 = Returns buffer_64
  /\ PasswordGenerator.extension_round km_counting 70 buffer_64
     = Returns (buffer_64 ++ chars "a*LrH-")
  /\ spec_extension_round 94 km_counting 70 buffer_64 = buffer_64 ++ chars "a*FlH-"
  /\ PasswordGenerator.extension_round km_counting 70 buffer_64
     <> Returns (spec_extension_round 94 km_counting 70 buffer_64).
Proof.
  assert (PasswordGenerator.extension_round km_counting 70 buffer_64
          = Returns (buffer_64 ++ chars "a*LrH-")) as Hcode
    by (vm_compute; reflexivity).
  assert (spec_extension_round 94 km_counting 70 buffer_64 = buffer_64 ++ chars "a*FlH-")
    as Hclaim by (vm_compute; reflexivity).
  split; [vm_compute; reflexivity|]. split; [exact Hcode|]. split; [exact Hclaim|].
  rewrite Hcode, Hclaim. vm_compute. discriminate.
Qed.

(** C5, amended. While the buffer is shorter than [length] after the key
    material is consumed, each extension round computes the SHA-256 digest
    of the key material followed by the current password length as a
    4-byte big-endian integer, and appends its bytes, mapped modulo 88 into
    the 88-character alphabet, until the password has [length] characters
    or the 32 bytes are used up; the next round hashes again with the new
    password length as counter. *)
Theorem extension_round_hashes_current_length (key_material : list byte) (length : Z)
    (password : list ascii) :
  len password < length ->
  len password < 2 ^ 32 ->
  PasswordGenerator.extension_round key_material length password
  = Returns (spec_extension_round 88 key_material length password)
  /\ len (spec_extension_round 88 key_material length password)
     = len password + Z.min 32 (length - len password)
  /\ (forall fuel,
        PasswordGenerator.step3 (S fuel) key_material length password
        = PasswordGenerator.step3 fuel key_material length
            (spec_extension_round 88 key_material length password))
  /\ str_len PasswordGenerator.all_chars = 88.
Proof.
  intros Hshort Hsmall.
  pose proof (extension_round_returns key_material length password Hsmall) as Hround.
  split; [exact Hround|]. split.
  { rewrite len_spec_extension_round. lia. }
  split; [|reflexivity].
  intros fuel. unfold PasswordGenerator.step3. cbn [while].
  destruct (Z.ltb_spec (len password) length); [|lia].
  by rewrite Hround.
Qed.

Lemma extension_round_hashes_current_length_witness :
  len buffer_64 < 70 /\ len buffer_64 < 2 ^ 32
  /\ PasswordGenerator.extension_round km_counting 70 buffer_64
     = Returns (spec_extension_round 88 km_counting 70 buffer_64).
Proof.
  split; [reflexivity|]. split; [reflexivity|].
  destruct (extension_round_hashes_current_length km_counting 70 buffer_64) as [H _];
    [reflexivity | reflexivity | exact H].
Defined.

(** C6. For a length of at least 4 and a 64-byte key material, step 4 is
    the permutation of the specification: for [i] from 0 to [length - 1],
    if [i < 64] the characters at [i] and [key_material[i] mod length] are
    exchanged, and an index of 64 or more exchanges nothing; the returned
    password is the buffer so permuted. *)
Theorem shuffle_is_partial_swap_sequence (key_material : list byte) (length : Z) :
  List.length key_material = 64%nat ->
  4 <= length ->
  (forall buf, len buf = length ->
     PasswordGenerator.step4 key_material buf
     = Returns (spec_phase_D key_material length buf))
  /\ (forall buf,
        PasswordGenerator.fill_buffer key_material length = Returns buf ->
        len buf = length
        /\ PasswordGenerator._map_to_password key_material length
           = Returns (string_of_list_ascii (spec_phase_D key_material length buf)))
  /\ (length <= 2 ^ 32 ->
      exists buf, PasswordGenerator.fill_buffer key_material length = Returns buf).
Proof.
  intros Hkm Hlength. split; [|split].
  - intros buf <-. by apply step4_returns.
  - intros buf Hbuf.
    destruct (_map_to_password_of_buffer key_material length buf Hkm Hbuf)
      as (Hlen & _ & Hrun).
    replace (Z.max 4 length) with length in Hlen by lia. split; [done|].
    rewrite Hrun, Hlen. rewrite slice_to_all; [done|].
    unfold len. rewrite length_spec_phase_D. unfold len in Hlen. lia.
  - intros Hmax.
    destruct (_map_to_password_returns key_material Hkm length Hmax) as (buf & Hbuf & _).
    eauto.
Qed.

Lemma shuffle_is_partial_swap_sequence_witness :
  List.length km_ones = 64%nat /\ 4 <= 8
  /\ PasswordGenerator.step4 km_ones (chars "Bb1@BBBB")
     = Returns (spec_phase_D km_ones 8 (chars "Bb1@BBBB")).
Proof.
  split; [reflexivity|]. split; [lia|].
  destruct (shuffle_is_partial_swap_sequence km_ones 8) as [H _]; [reflexivity | lia |].
  apply H. reflexivity.
Defined.

(** C7 as stated fails: the core validates no length. With the secret
    [anchor], the keyword [alpha] and a length of 0 the result is a
    success carrying the empty password, not a failure. *)
Lemma zero_length_is_not_rejected :
  PasswordCore.generate_password sample_detector "anchor" ["alpha"] 0 false
  = Returns (success_result "" "manual_master_key" 1)
  /\ ~ (exists r msg,
          PasswordCore.generate_password sample_detector "anchor" ["alpha"] 0 false
          = Returns r
          /\ fails_with r msg).
Proof.
  destruct (core_generate_nonpositive sample_detector "anchor" ["alpha"] 0 false)
    as [Hrun _]; [lia | by left | done |].
  rewrite slice_to_zero in Hrun. cbn [string_of_list_ascii] in Hrun.
  split; [exact Hrun|].
  intros (r & msg & Hr & Hfail).
  exact (returned_success_never_fails _ _ _ _ _ _ Hrun Hr Hfail).
Qed.

(** C7, amended. For a length of zero or below, with a secret (a
    non-empty master key, or the fingerprint) and a non-empty keyword
    list, the core rejects nothing: the result is a success whose
    password is the four characters of step 1, shuffled, cut by the slice
    [[:length]]: empty for a length of 0 or of -4 and below, and the
    first [4 + length] characters in between. *)
Theorem nonpositive_length_yields_success (hw : HardwareDetector) (master_key : string)
    (user_keys : list string) (length : Z) (use_default_fingerprint : bool) :
  length <= 0 ->
  master_key <> "" \/ use_default_fingerprint = true ->
  user_keys <> [] ->
  let key_material :=
    PasswordGenerator._generate_pbkdf2
      (PasswordGenerator.combined_input
         (if use_default_fingerprint then get_default_fingerprint hw else master_key)
         user_keys) in
  let password :=
    string_of_list_ascii
      (slice_to (spec_phase_D key_material 4 (class_prefix key_material)) length) in
  PasswordCore.generate_password hw master_key user_keys length use_default_fingerprint
  = Returns (success_result password
               (if use_default_fingerprint then "default_fingerprint"
                else "manual_master_key")
               (len user_keys))
  /\ str_len password = (if length =? 0 then 0 else Z.max 0 (4 + length)).
Proof. apply core_generate_nonpositive. Qed.

Lemma nonpositive_length_yields_success_witness :
  -1 <= 0 /\ ("anchor" <> "" \/ false = true) /\ ["alpha"] <> []
  /\ exists password,
       PasswordCore.generate_password sample_detector "anchor" ["alpha"] (-1) false
       = Returns (success_result password "manual_master_key" 1)
       /\ str_len password = 3.
Proof.
  split; [lia|]. split; [by left|]. split; [done|].
  destruct (nonpositive_length_yields_success sample_detector "anchor" ["alpha"] (-1) false)
    as [Hrun Hlen]; [lia | by left | done |].
  eexists. split; [exact Hrun | exact Hlen].
Defined.

(** C8 as stated fails: the core trims nothing. The keyword list [[""]]
    is not empty, so the call succeeds instead of failing with
    MissingKeywords. *)
Lemma blank_keyword_is_not_rejected :
  ~ (exists r,
       PasswordCore.generate_password sample_detector "anchor" [""] 16 false = Returns r
       /\ fails_with r MissingKeywords).
Proof.
  intros (r & Hr & Hfail).
  destruct (core_generate_success sample_detector "anchor" [""] 16 false)
    as (buf & _ & _ & _ & Hrun); [by left | done | lia |].
  exact (returned_success_never_fails _ _ _ _ _ _ Hrun Hr Hfail).
Qed.

(** C8, amended. With a secret present, the core fails with
    MissingKeywords when the keyword list is empty, and no password is
    produced. A non-empty list is not rejected whatever its entries: they
    are not trimmed, and a list such as [[""]] yields a success (for a
    length of at most 2^32). *)
Theorem empty_keyword_list_is_rejected (hw : HardwareDetector) (master_key : string)
    (length : Z) (use_default_fingerprint : bool) :
  master_key <> "" \/ use_default_fingerprint = true ->
  PasswordCore.generate_password hw master_key [] length use_default_fingerprint
  = Returns (failure_result MissingKeywords)
  /\ fails_with (failure_result MissingKeywords) MissingKeywords
  /\ (forall user_keys, user_keys <> [] -> length <= 2 ^ 32 ->
        exists password,
          PasswordCore.generate_password hw master_key user_keys length
            use_default_fingerprint
          = Returns (success_result password
                       (if use_default_fingerprint then "default_fingerprint"
                        else "manual_master_key")
                       (len user_keys))).
Proof.
  intros Hsecret. split; [|split].
  - unfold PasswordCore.generate_password.
    assert (negb (str_truthy master_key) && negb use_default_fingerprint = false) as ->.
    { destruct Hsecret as [Hmk| ->]; [|apply andb_false_r].
      destruct master_key; [done | reflexivity]. }
    reflexivity.
  - apply fails_with_failure_result.
  - intros user_keys Hkeys Hlength.
    destruct (core_generate_success hw master_key user_keys length
                use_default_fingerprint Hsecret Hkeys Hlength)
      as (buf & _ & _ & _ & Hrun).
    eexists. exact Hrun.
Qed.

Lemma empty_keyword_list_is_rejected_witness :
  ("anchor" <> "" \/ false = true)
  /\ PasswordCore.generate_password sample_detector "anchor" [] 16 false
     = Returns (failure_result MissingKeywords).
Proof.
  split; [by left|].
  destruct (empty_keyword_list_is_rejected sample_detector "anchor" 16 false) as [H _];
    [by left | exact H].
Defined.

(** C9. For every master key, keyword list, length and fingerprint flag
    the core returns a result dictionary: a success carrying the password
    and its metadata, or a failure carrying an error message; no
    exception leaves the core (and the call terminates). *)
Theorem core_always_returns_structured_result (hw : HardwareDetector)
    (master_key : string) (user_keys : list string) (length : Z)
    (use_default_fingerprint : bool) :
  exists r,
    PasswordCore.generate_password hw master_key user_keys length use_default_fingerprint
    = Returns r
    /\ ((is_success r
         /\ exists password source,
              r !! "password" = Some (VStr password)
              /\ r !! "length" = Some (VInt (str_len password))
              /\ r !! "source" = Some (VStr source)
              /\ r !! "keys_used" = Some (VInt (len user_keys)))
        \/ (is_failure r
            /\ r !! "password" = None
            /\ exists msg, r !! "error" = Some (VStr msg))).
Proof.
  destruct (core_generate_structured hw master_key user_keys length use_default_fingerprint)
    as [(password & source & ->)|(msg & ->)].
  - eexists. split; [reflexivity|]. left.
    destruct (success_result_lookup password source (len user_keys))
      as (Hs & Hp & Hl & Hsrc & Hk & _).
    split; [exact Hs|]. exists password, source. by repeat split.
  - eexists. split; [reflexivity|]. right.
    destruct (failure_result_lookup msg) as (Hf & He & Hp).
    split; [exact Hf|]. split; [exact Hp|]. by exists msg.
Qed.

(** C10. With the fingerprint flag set, the result does not depend on the
    master key argument: two calls that differ only in it return the same
    result, and a success reports the source [default_fingerprint]. *)
Theorem fingerprint_mode_ignores_master_key (hw : HardwareDetector)
    (master_key1 master_key2 : string) (user_keys : list string) (length : Z) :
  PasswordCore.generate_password hw master_key1 user_keys length true
  = PasswordCore.generate_password hw master_key2 user_keys length true
  /\ ((exists password,
         PasswordCore.generate_password hw master_key1 user_keys length true
         = Returns (success_result password "default_fingerprint" (len user_keys)))
      \/ (exists msg,
            PasswordCore.generate_password hw master_key1 user_keys length true
            = Returns (failure_result msg))).
Proof.
  split.
  - unfold PasswordCore.generate_password. by rewrite !andb_false_r.
  - destruct user_keys as [|k ks] eqn:Hkeys.
    + right. exists MissingKeywords. unfold PasswordCore.generate_password.
      by rewrite andb_false_r.
    + rewrite <- Hkeys.
      rewrite core_generate_valid by (by right || by subst).
      set (key_material := PasswordGenerator._generate_pbkdf2 _).
      assert (List.length key_material = 64%nat) as Hkm
        by apply length__generate_pbkdf2.
      clearbody key_material.
      destruct (_map_to_password_terminates key_material Hkm length)
        as [[password ->]|[e ->]].
      * left. by exists password.
      * right. by eexists.
Qed.

(** * Further properties of the mapper *)

(** What a [while] loop returns satisfies every invariant of its body, and
    falsifies its condition. *)
Lemma while_invariant {S : Type} (cond : S -> bool) (body : S -> outcome S)
    (I : S -> Prop) :
  (forall s s1, I s -> cond s = true -> body s = Returns s1 -> I s1) ->
  forall fuel s s', I s -> while fuel cond body s = Returns s' ->
    I s' /\ cond s' = false.
Proof.
  intros Hbody fuel. induction fuel as [|fuel IH]; intros s s' Hs Hrun; simpl in Hrun.
  - destruct (cond s) eqn:Hc; [discriminate|]. by injection Hrun as <-.
  - destruct (cond s) eqn:Hc; [|by injection Hrun as <-].
    apply bind_returns_inv in Hrun as (s1 & Hs1 & Hrun).
    apply (IH s1 s'); [|done]. by apply (Hbody s).
Qed.

(** What a [for] loop returns satisfies every invariant of its body. *)
Lemma for_each_invariant {X S : Type} (body : X -> S -> outcome (flow S))
    (I : S -> Prop) (xs : list X) :
  (forall x s r, I s -> body x s = Returns r ->
     match r with Next s1 | Break s1 => I s1 end) ->
  forall s s', I s -> for_each xs body s = Returns s' -> I s'.
Proof.
  intros Hbody. induction xs as [|x xs IH]; intros s s' Hs Hrun; simpl in Hrun.
  - by injection Hrun as <-.
  - apply bind_returns_inv in Hrun as (r & Hr & Hrun).
    pose proof (Hbody x s r Hs Hr) as Hnext. destruct r as [s1|s1].
    + by apply (IH s1).
    + by injection Hrun as <-.
Qed.

Lemma getitem_elem_of {A : Type} (l : list A) (i : Z) (x : A) :
  getitem l i = Returns x -> x ∈ l.
Proof.
  unfold getitem. destruct (index_position (len l) i) as [k|]; [|discriminate].
  destruct (l !! k) eqn:Hk; [|discriminate].
  intros [= <-]. apply list_elem_of_lookup. eauto.
Qed.

Lemma chars_all_chars :
  chars PasswordGenerator.all_chars
  = chars UPPERCASE_CHARS ++ chars LOWERCASE_CHARS ++ chars DIGIT_CHARS
    ++ chars SYMBOL_CHARS.
Proof. reflexivity. Qed.

Lemma class_within_alphabet (char_set : string) (c : ascii) :
  char_set ∈ PasswordGenerator.char_sets ->
  c ∈ chars char_set -> c ∈ chars PasswordGenerator.all_chars.
Proof.
  unfold PasswordGenerator.char_sets. rewrite !elem_of_cons, elem_of_nil.
  rewrite chars_all_chars, !elem_of_app.
  intros [->|[->|[->|[->|[]]]]] Hc; tauto.
Qed.

Lemma class_prefix_alphabet (key_material : list byte) :
  Forall (fun c => c ∈ chars PasswordGenerator.all_chars) (class_prefix key_material).
Proof.
  unfold class_prefix.
  pose proof char_sets_nonempty as Hne.
  pose proof class_within_alphabet as Hsub.
  revert Hne Hsub. generalize PasswordGenerator.char_sets as sets.
  intros sets. revert key_material.
  induction sets as [|s sets IH]; intros key_material Hne Hsub; [constructor|].
  destruct key_material as [|b key_material]; [constructor|].
  cbn [zip_with]. constructor.
  - apply (Hsub s); [left|]. apply pick_elem_of. apply Hne. left.
  - apply IH.
    + intros s' Hs'. apply Hne. by right.
    + intros s' c Hs'. apply Hsub. by right.
Qed.

(** Every character steps 1 to 3 put in the buffer is a character of the
    alphabet. *)
Lemma fill_buffer_alphabet (key_material : list byte) (length : Z) (buf : list ascii) :
  PasswordGenerator.fill_buffer key_material length = Returns buf ->
  Forall (fun c => c ∈ chars PasswordGenerator.all_chars) buf.
Proof.
  unfold PasswordGenerator.fill_buffer. rewrite step1_returns. run.
  intros Hrun. apply bind_returns_inv in Hrun as ([p2 k2] & Hstep2 & Hstep3).
  assert (Forall (fun c => c ∈ chars PasswordGenerator.all_chars) p2) as Hp2.
  { unfold PasswordGenerator.step2 in Hstep2.
    eapply (while_invariant _ _
              (fun st => Forall (fun c => c ∈ chars PasswordGenerator.all_chars) st.1))
      in Hstep2 as [H _]; [exact H| |apply class_prefix_alphabet].
    intros [q j] s1 Hq _ Hbody. cbn [fst] in *.
    apply bind_returns_inv in Hbody as (b & _ & Hbody).
    apply bind_returns_inv in Hbody as (idx & _ & Hbody).
    apply bind_returns_inv in Hbody as (c & Hc & Hbody).
    injection Hbody as <-. cbn [fst].
    apply Forall_app. split; [done|]. constructor; [|constructor].
    by apply getitem_elem_of in Hc. }
  unfold PasswordGenerator.step3 in Hstep3.
  eapply (while_invariant _ _
            (Forall (fun c => c ∈ chars PasswordGenerator.all_chars)))
    in Hstep3 as [H _]; [exact H| |exact Hp2].
  intros q q1 Hq _ Hround. unfold PasswordGenerator.extension_round in Hround.
  apply bind_returns_inv in Hround as (counter & _ & Hround).
  eapply (for_each_invariant _
            (Forall (fun c => c ∈ chars PasswordGenerator.all_chars)));
    [|exact Hq|exact Hround].
  intros b s r Hs Hbody. cbv beta in Hbody.
  destruct (len s >=? length); [by injection Hbody as <-|].
  apply bind_returns_inv in Hbody as (idx & _ & Hbody).
  apply bind_returns_inv in Hbody as (c & Hc & Hbody).
  injection Hbody as <-.
  apply Forall_app. split; [done|]. constructor; [|constructor].
  by apply getitem_elem_of in Hc.
Qed.

Ltac run_in H := cbn [mbind outcome_bind] in H.

Lemma while_done {S : Type} (fuel : nat) (cond : S -> bool) (body : S -> outcome S)
    (s : S) :
  cond s = false -> while fuel cond body s = Returns s.
Proof. intros Hc. destruct fuel; simpl; by rewrite Hc. Qed.

(** Step 2, exactly: the bytes from the cursor on, one character each,
    until the length is reached or the key material is used up. *)
Lemma step2_exact (key_material : list byte) (length : Z) (p : list ascii) (k : nat) :
  let n := Z.to_nat (Z.min (length - len p) (len key_material - Z.of_nat k)) in
  PasswordGenerator.step2 (List.length key_material) key_material length (p, Z.of_nat k)
  = Returns (p ++ map (fun b => pick PasswordGenerator.all_chars (byte_val b))
                    (take n (drop k key_material)),
             Z.of_nat k + Z.of_nat n).
Proof.
  intros n.
  destruct (step2_returns key_material length p k) as (p' & Hrun & Hlen).
  rewrite Hrun. do 2 f_equal; [|unfold len in *; lia].
  unfold PasswordGenerator.step2 in Hrun.
  eapply (while_invariant _ _
            (fun st =>
               exists m,
                 st.1 = p ++ map (fun b => pick PasswordGenerator.all_chars (byte_val b))
                              (take m (drop k key_material))
                 /\ st.2 = Z.of_nat k + Z.of_nat m
                 /\ (m <= List.length key_material - k)%nat))
    in Hrun as [(m & Hq & Hj & Hm) _].
  - cbn [fst snd] in *. apply app_inv_head in Hq. subst p'.
    unfold len in Hlen. rewrite length_map, length_take, length_drop in Hlen.
    replace n with m; [done|]. unfold n, len. lia.
  - intros [q j] s1 (m & Hq & Hj & Hm) Hcond Hbody. cbn [fst snd] in *. subst q j.
    apply andb_true_iff in Hcond as [_ Hidx]. apply Z.ltb_lt in Hidx.
    destruct (lookup_lt_is_Some_2 key_material (k + m)) as [b Hb];
      [unfold len in Hidx; lia|].
    replace (Z.of_nat k + Z.of_nat m) with (Z.of_nat (k + m)) in Hbody by lia.
    rewrite (bytes_getitem_lookup _ _ _ Hb) in Hbody. run_in Hbody.
    rewrite py_mod_nonzero in Hbody by (rewrite str_len_all_chars; lia). run_in Hbody.
    rewrite str_getitem_pick in Hbody by (rewrite str_len_all_chars; lia). run_in Hbody.
    injection Hbody as <-. exists (S m). cbn [fst snd]. split; [|split].
    + rewrite (take_S_r _ _ b) by (by rewrite lookup_drop).
      by rewrite map_app, app_assoc.
    + lia.
    + apply lookup_lt_Some in Hb. lia.
  - exists 0%nat. cbn [fst snd]. rewrite take_0. cbn [map]. rewrite app_nil_r.
    split; [done|]. split; lia.
Qed.

Lemma slice_to_is_take {A : Type} (l : list A) (stop : Z) :
  exists n, slice_to l stop = take n l.
Proof. unfold slice_to. destruct (stop <? 0); eauto. Qed.

(** The four classes have no character in common. *)
Lemma classes_disjoint :
  forall c,
    (c ∈ chars UPPERCASE_CHARS -> c ∉ chars LOWERCASE_CHARS)
    /\ (c ∈ chars UPPERCASE_CHARS -> c ∉ chars DIGIT_CHARS)
    /\ (c ∈ chars UPPERCASE_CHARS -> c ∉ chars SYMBOL_CHARS)
    /\ (c ∈ chars LOWERCASE_CHARS -> c ∉ chars DIGIT_CHARS)
    /\ (c ∈ chars LOWERCASE_CHARS -> c ∉ chars SYMBOL_CHARS)
    /\ (c ∈ chars DIGIT_CHARS -> c ∉ chars SYMBOL_CHARS).
Proof.
  assert (forall l k : list ascii,
            forallb (fun c => negb (bool_decide (c ∈ k))) l = true ->
            forall c, c ∈ l -> c ∉ k) as Hdec.
  { intros l k Hall c Hc Hk. rewrite forallb_forall in Hall.
    specialize (Hall c ltac:(by apply list_elem_of_In)).
    apply negb_true_iff, bool_decide_eq_false in Hall. done. }
  intros c. repeat split; apply Hdec; vm_compute; reflexivity.
Qed.

Lemma contains_from_inv (char_set password : string) :
  contains_from char_set password = true ->
  exists c, c ∈ chars password /\ c ∈ chars char_set.
Proof.
  unfold contains_from. rewrite existsb_exists.
  intros (c & Hc & Hdec). exists c. split; [by apply list_elem_of_In|].
  by apply bool_decide_eq_true in Hdec.
Qed.

(** A password that covers the four classes has at least four characters. *)
Lemma covers_all_classes_length (password : string) :
  covers_all_classes password = true -> 4 <= str_len password.
Proof.
  unfold covers_all_classes. rewrite !andb_true_iff.
  intros [[[Hu Hl] Hd] Hs].
  apply contains_from_inv in Hu as (cu & Hu & Hcu).
  apply contains_from_inv in Hl as (cl & Hl & Hcl).
  apply contains_from_inv in Hd as (cd & Hd & Hcd).
  apply contains_from_inv in Hs as (cs & Hs & Hcs).
  assert (NoDup [cu; cl; cd; cs]) as Hnodup.
  { pose proof (classes_disjoint cu) as (H1 & H2 & H3 & _).
    pose proof (classes_disjoint cl) as (_ & _ & _ & H4 & H5 & _).
    pose proof (classes_disjoint cd) as (_ & _ & _ & _ & _ & H6).
    apply NoDup_cons_2; [|apply NoDup_cons_2; [|apply NoDup_cons_2; [|apply NoDup_singleton]]].
    - rewrite !elem_of_cons, elem_of_nil. intros [Heq|[Heq|[Heq|[]]]]; subst.
      + exact (H1 Hcu Hcl).
      + exact (H2 Hcu Hcd).
      + exact (H3 Hcu Hcs).
    - rewrite !elem_of_cons, elem_of_nil. intros [Heq|[Heq|[]]]; subst.
      + exact (H4 Hcl Hcd).
      + exact (H5 Hcl Hcs).
    - rewrite elem_of_cons, elem_of_nil. intros [Heq|[]]; subst.
      exact (H6 Hcd Hcs). }
  assert ([cu; cl; cd; cs] ⊆+ chars password) as Hsub.
  { apply NoDup_submseteq; [done|]. intros c.
    rewrite !elem_of_cons, elem_of_nil.
    intros [->|[->|[->|[->|[]]]]]; assumption. }
  apply submseteq_length in Hsub. rewrite length_chars in Hsub.
  unfold str_len. cbn [List.length] in Hsub. lia.
Qed.

(** The mapper returns [length] characters for every length from 0 to 2^32. *)
Lemma _map_to_password_length (key_material : list byte) (length : Z) :
  List.length key_material = 64%nat ->
  0 <= length <= 2 ^ 32 ->
  exists password,
    PasswordGenerator._map_to_password key_material length = Returns password
    /\ str_len password = length.
Proof.
  intros Hkm Hlength.
  destruct (_map_to_password_returns key_material Hkm length ltac:(lia))
    as (buf & _ & Hlen & _ & Hrun).
  eexists. split; [exact Hrun|].
  unfold str_len. rewrite length_string_of_list_ascii, slice_to_nonneg by lia.
  rewrite length_take, length_spec_phase_D. unfold len in Hlen. lia.
Qed.

(** Every character of a returned password is a character of the alphabet. *)
Lemma _map_to_password_alphabet (key_material : list byte) (length : Z)
    (password : string) :
  List.length key_material = 64%nat ->
  PasswordGenerator._map_to_password key_material length = Returns password ->
  Forall (fun c => c ∈ chars PasswordGenerator.all_chars) (chars password).
Proof.
  intros Hkm Hrun.
  destruct (fill_buffer_returns_or_raises key_material length)
    as [(p' & Hbuf & _)|(e & Hbuf & _)].
  - destruct (_map_to_password_of_buffer key_material length _ Hkm Hbuf)
      as (_ & _ & Hrun').
    rewrite Hrun' in Hrun. injection Hrun as <-.
    rewrite chars_string_of_list_ascii.
    destruct (slice_to_is_take
                (spec_phase_D key_material (len (class_prefix key_material ++ p'))
                   (class_prefix key_material ++ p')) length) as [n ->].
    apply Forall_take.
    rewrite Forall_forall. intros c Hc.
    rewrite spec_phase_D_Permutation in Hc.
    pose proof (fill_buffer_alphabet key_material length _ Hbuf) as Hall.
    rewrite Forall_forall in Hall. by apply Hall.
  - unfold PasswordGenerator._map_to_password in Hrun.
    rewrite Hbuf in Hrun. discriminate.
Qed.


(** The mapper's contract for a length of 4 to 2^32: exactly [length]
    characters, all of the alphabet, every class present. *)
Lemma _map_to_password_contract (key_material : list byte) (length : Z) :
  List.length key_material = 64%nat ->
  4 <= length <= 2 ^ 32 ->
  exists password,
    PasswordGenerator._map_to_password key_material length = Returns password
    /\ str_len password = length
    /\ covers_all_classes password = true
    /\ Forall (fun c => c ∈ chars PasswordGenerator.all_chars) (chars password).
Proof.
  intros Hkm Hlength.
  destruct (_map_to_password_length key_material length Hkm ltac:(lia))
    as (password & Hrun & Hlen).
  exists password. split; [exact Hrun|]. split; [exact Hlen|]. split.
  - destruct (_map_to_password_returns key_material Hkm length ltac:(lia))
      as (buf & _ & Hbuf & Hprefix & Hrun').
    rewrite Hrun' in Hrun. injection Hrun as <-.
    rewrite slice_to_all.
    + apply (covers_all_classes_shuffled key_material buf _ Hkm Hprefix).
      apply spec_phase_D_Permutation.
    + unfold len. rewrite length_spec_phase_D. unfold len in Hbuf. lia.
  - by apply (_map_to_password_alphabet key_material length).
Qed.

(** X1. Alphabet closure: every character of a password the mapper
    returns belongs to the 88-character alphabet [all_chars]. *)
Theorem password_uses_alphabet_only (key_material : list byte) (length : Z)
    (password : string) :
  List.length key_material = 64%nat ->
  PasswordGenerator._map_to_password key_material length = Returns password ->
  Forall (fun c => c ∈ chars PasswordGenerator.all_chars) (chars password).
Proof. apply _map_to_password_alphabet. Qed.

Lemma password_uses_alphabet_only_witness :
  List.length km_counting = 64%nat
  /\ PasswordGenerator._map_to_password km_counting 70
     = Returns
         "Ab2$EFGHIJKLMNOPQRSTUVWXYZabcdefghijklmnopqrstuvwxyz0123456789!@a*LrH-"%string
  /\ Forall (fun c => c ∈ chars PasswordGenerator.all_chars)
       (chars "Ab2$EFGHIJKLMNOPQRSTUVWXYZabcdefghijklmnopqrstuvwxyz0123456789!@a*LrH-").
Proof.
  assert (PasswordGenerator._map_to_password km_counting 70
          = Returns
              "Ab2$EFGHIJKLMNOPQRSTUVWXYZabcdefghijklmnopqrstuvwxyz0123456789!@a*LrH-"%string)
    as Hrun by (vm_compute; reflexivity).
  split; [reflexivity|]. split; [exact Hrun|].
  exact (password_uses_alphabet_only km_counting 70 _ eq_refl Hrun).
Defined.

(** X2. The length contract beyond the range of the command line: for
    every length from 0 to 2^32 the mapper returns a password of exactly
    [length] characters; below 4 the final slice cuts the four characters
    of step 1 down to [length]. *)
Theorem map_to_password_length_from_zero (key_material : list byte) (length : Z) :
  List.length key_material = 64%nat ->
  0 <= length <= 2 ^ 32 ->
  exists password,
    PasswordGenerator._map_to_password key_material length = Returns password
    /\ str_len password = length.
Proof. apply _map_to_password_length. Qed.

Lemma map_to_password_length_from_zero_witness :
  List.length km_ones = 64%nat /\ 0 <= 2 <= 2 ^ 32
  /\ exists password,
       PasswordGenerator._map_to_password km_ones 2 = Returns password
       /\ str_len password = 2.
Proof.
  split; [reflexivity|]. split; [lia|].
  apply (map_to_password_length_from_zero km_ones 2); [reflexivity | lia].
Defined.

(** X3. Below a length of 4 class coverage is impossible: the four
    classes are pairwise disjoint, so the password the mapper returns for
    a length of 0 to 3 misses at least one class. *)
Theorem short_password_misses_a_class (key_material : list byte) (length : Z) :
  List.length key_material = 64%nat ->
  0 <= length < 4 ->
  exists password,
    PasswordGenerator._map_to_password key_material length = Returns password
    /\ covers_all_classes password = false.
Proof.
  intros Hkm Hlength.
  destruct (_map_to_password_length key_material length Hkm ltac:(lia))
    as (password & Hrun & Hlen).
  exists password. split; [exact Hrun|].
  destruct (covers_all_classes password) eqn:Hcover; [|done].
  apply covers_all_classes_length in Hcover. lia.
Qed.

Lemma short_password_misses_a_class_witness :
  List.length km_ones = 64%nat /\ 0 <= 3 < 4
  /\ exists password,
       PasswordGenerator._map_to_password km_ones 3 = Returns password
       /\ covers_all_classes password = false.
Proof.
  split; [reflexivity|]. split; [lia|].
  apply (short_password_misses_a_class km_ones 3); [reflexivity | lia].
Defined.

(** X4. For a length of 4 or more (up to 2^32) the returned password is a
    rearrangement of the buffer of steps 1 to 3: the shuffle raises no
    index error and neither loses nor repeats a character. *)
Theorem password_is_rearranged_buffer (key_material : list byte) (length : Z) :
  List.length key_material = 64%nat ->
  4 <= length <= 2 ^ 32 ->
  exists buf password,
    PasswordGenerator.fill_buffer key_material length = Returns buf
    /\ PasswordGenerator._map_to_password key_material length = Returns password
    /\ chars password ≡ₚ buf.
Proof.
  intros Hkm Hlength.
  destruct (_map_to_password_returns key_material Hkm length ltac:(lia))
    as (buf & Hbuf & Hlen & _ & Hrun).
  exists buf. eexists. split; [exact Hbuf|]. split; [exact Hrun|].
  rewrite chars_string_of_list_ascii, slice_to_all.
  - apply spec_phase_D_Permutation.
  - unfold len. rewrite length_spec_phase_D. unfold len in Hlen. lia.
Qed.

Lemma password_is_rearranged_buffer_witness :
  List.length km_ones = 64%nat /\ 4 <= 8 <= 2 ^ 32
  /\ exists buf password,
       PasswordGenerator.fill_buffer km_ones 8 = Returns buf
       /\ PasswordGenerator._map_to_password km_ones 8 = Returns password
       /\ chars password ≡ₚ buf.
Proof.
  split; [reflexivity|]. split; [lia|].
  apply (password_is_rearranged_buffer km_ones 8); [reflexivity | lia].
Defined.

(** X5. Up to a length of 64 no hashing takes place: steps 1 to 3 leave
    the four class characters followed, for each index [i] from 4 to
    [length - 1], by the character that byte [i] of the key material
    selects from the alphabet. *)
Theorem short_buffer_from_key_bytes (key_material : list byte) (length : Z) :
  List.length key_material = 64%nat ->
  4 <= length <= 64 ->
  PasswordGenerator.fill_buffer key_material length
  = Returns (class_prefix key_material
             ++ map (fun b => pick PasswordGenerator.all_chars (byte_val b))
                  (take (Z.to_nat length - 4) (drop 4 key_material))).
Proof.
  intros Hkm Hlength.
  pose proof (len_class_prefix_64 key_material Hkm) as H4.
  unfold PasswordGenerator.fill_buffer. rewrite step1_returns. run.
  unfold len at 1. rewrite step2_exact. run.
  assert (List.length (class_prefix key_material) = 4%nat) as ->
    by (unfold len in H4; lia).
  rewrite H4. unfold len at 1. rewrite Hkm.
  replace (Z.to_nat (Z.min (length - 4) (Z.of_nat 64 - Z.of_nat 4)))
    with (Z.to_nat length - 4)%nat by lia.
  unfold PasswordGenerator.step3. apply while_done.
  apply Z.ltb_ge. rewrite len_app, H4. unfold len.
  rewrite length_map, length_take, length_drop, Hkm. lia.
Qed.

Lemma short_buffer_from_key_bytes_witness :
  List.length km_counting = 64%nat /\ 4 <= 8 <= 64
  /\ PasswordGenerator.fill_buffer km_counting 8
     = Returns (class_prefix km_counting
                ++ map (fun b => pick PasswordGenerator.all_chars (byte_val b))
                     (take (Z.to_nat 8 - 4) (drop 4 km_counting))).
Proof.
  split; [reflexivity|]. split; [lia|].
  apply (short_buffer_from_key_bytes km_counting 8); [reflexivity | lia].
Defined.

(** * The hardware fingerprint and the orchestrator *)

Lemma length_hexdigest (bs : list byte) :
  String.length (hexdigest bs) = (2 * List.length bs)%nat.
Proof.
  unfold hexdigest. rewrite length_string_of_list_ascii.
  induction bs as [|b bs IH]; [done|]. cbn [flat_map app List.length]. lia.
Qed.

Lemma hex_digit_elem_of (n : Z) :
  0 <= n < 16 -> hex_digit n ∈ chars "0123456789abcdef".
Proof.
  intros Hn. unfold hex_digit.
  destruct (lookup_lt_is_Some_2 (chars "0123456789abcdef") (Z.to_nat n)) as [c Hc].
  - rewrite length_chars. cbn [String.length]. lia.
  - unfold chars in *. rewrite (nth_lookup_Some _ _ _ _ Hc).
    apply list_elem_of_lookup. eauto.
Qed.

Lemma hexdigest_hex (bs : list byte) :
  Forall (fun c => c ∈ chars "0123456789abcdef") (chars (hexdigest bs)).
Proof.
  unfold hexdigest. rewrite chars_string_of_list_ascii.
  induction bs as [|b bs IH]; [constructor|]. cbn [flat_map app].
  pose proof (byte_val_range b) as Hb.
  constructor; [|constructor; [|exact IH]].
  - apply hex_digit_elem_of. split; [apply Z.div_pos; lia|].
    apply Z.div_lt_upper_bound; lia.
  - apply hex_digit_elem_of. apply Z.mod_pos_bound. lia.
Qed.

(** The first 32 hexadecimal digits of a SHA-256 digest. *)
Lemma digest_prefix_format (msg : list byte) :
  let fingerprint := str_slice_to (hexdigest (SHA256.sha256 msg)) 32 in
  String.length fingerprint = 32%nat
  /\ Forall (fun c => c ∈ chars "0123456789abcdef") (chars fingerprint).
Proof.
  cbv zeta. unfold str_slice_to. rewrite chars_string_of_list_ascii.
  rewrite length_string_of_list_ascii, slice_to_nonneg by lia. split.
  - rewrite length_take. fold (chars (hexdigest (SHA256.sha256 msg))).
    rewrite length_chars, length_hexdigest, length_sha256. lia.
  - apply Forall_take. apply hexdigest_hex.
Qed.

(** The fingerprint is the digest prefix of the joined identifiers. *)
Lemma get_default_fingerprint_digest (self : HardwareDetector) :
  exists identifiers,
    get_default_fingerprint self
    = str_slice_to (hexdigest (SHA256.sha256 (encode (join "|" identifiers)))) 32.
Proof. unfold get_default_fingerprint. cbv zeta. eauto. Qed.

Lemma get_default_fingerprint_nonempty (self : HardwareDetector) :
  get_default_fingerprint self <> "".
Proof.
  destruct (get_default_fingerprint_digest self) as [ids ->].
  destruct (digest_prefix_format (encode (join "|" ids))) as [Hlen _].
  cbv zeta in Hlen. intros Hempty. rewrite Hempty in Hlen. discriminate.
Qed.

(** The orchestrator on a 64-byte key material, whatever the length: a
    success carrying what the mapper returned, or a failure carrying the
    message of what it raised. *)
Lemma core_generate_cases (hw : HardwareDetector) (master_key : string)
    (user_keys : list string) (length : Z) (use_default_fingerprint : bool) :
  master_key <> "" \/ use_default_fingerprint = true ->
  user_keys <> [] ->
  let key_material :=
    PasswordGenerator._generate_pbkdf2
      (PasswordGenerator.combined_input
         (if use_default_fingerprint then get_default_fingerprint hw else master_key)
         user_keys) in
  let source :=
    if use_default_fingerprint then "default_fingerprint" else "manual_master_key" in
  List.length key_material = 64%nat
  /\ ((exists password,
         PasswordGenerator._map_to_password key_material length = Returns password
         /\ PasswordCore.generate_password hw master_key user_keys length
              use_default_fingerprint
            = Returns (success_result password source (len user_keys)))
      \/ (exists e,
            PasswordGenerator._map_to_password key_material length = Raises e
            /\ PasswordCore.generate_password hw master_key user_keys length
                 use_default_fingerprint
               = Returns (failure_result (str_of_exception e)))).
Proof.
  intros Hsecret Hkeys key_material source.
  rewrite core_generate_valid by assumption. fold key_material. fold source.
  assert (List.length key_material = 64%nat) as Hkm by apply length__generate_pbkdf2.
  clearbody key_material. split; [exact Hkm|].
  destruct (_map_to_password_terminates key_material Hkm length)
    as [[password Hrun]|[e Hrun]]; rewrite Hrun.
  - left. by exists password.
  - right. by exists e.
Qed.

(** X6. The secret check comes first: with an empty master key and the
    fingerprint flag off the core fails with "Master key required",
    whatever the keyword list (the empty one included) and the length. *)
Theorem missing_secret_is_reported_first (hw : HardwareDetector)
    (user_keys : list string) (length : Z) :
  PasswordCore.generate_password hw "" user_keys length false
  = Returns (failure_result MissingSecret)
  /\ fails_with (failure_result MissingSecret) MissingSecret
  /\ MissingSecret <> MissingKeywords.
Proof.
  split; [reflexivity|]. split; [apply fails_with_failure_result | discriminate].
Qed.

(** X7. End to end: with a secret, a non-empty keyword list and a length
    from 4 to 2^32, the core returns a success whose password has exactly
    the requested length, uses only the alphabet and covers the four
    classes; the reported length is the requested one and [keys_used] is
    the number of keywords. *)
Theorem core_password_meets_contract (hw : HardwareDetector) (master_key : string)
    (user_keys : list string) (length : Z) (use_default_fingerprint : bool) :
  master_key <> "" \/ use_default_fingerprint = true ->
  user_keys <> [] ->
  4 <= length <= 2 ^ 32 ->
  exists password r,
    PasswordCore.generate_password hw master_key user_keys length use_default_fingerprint
    = Returns r
    /\ r !! "success" = Some (VBool true)
    /\ r !! "password" = Some (VStr password)
    /\ r !! "length" = Some (VInt length)
    /\ r !! "keys_used" = Some (VInt (len user_keys))
    /\ str_len password = length
    /\ covers_all_classes password = true
    /\ Forall (fun c => c ∈ chars PasswordGenerator.all_chars) (chars password).
Proof.
  intros Hsecret Hkeys Hlength.
  destruct (core_generate_cases hw master_key user_keys length use_default_fingerprint
              Hsecret Hkeys) as [Hkm Hcases].
  cbv zeta in Hkm, Hcases.
  set (key_material := PasswordGenerator._generate_pbkdf2 _) in *.
  clearbody key_material.
  destruct (_map_to_password_contract key_material length Hkm Hlength)
    as (password & Hrun & Hlen & Hcover & Halpha).
  destruct Hcases as [(password' & Hrun' & Hcore)|(e & Hrun' & _)]; [|congruence].
  assert (password' = password) as -> by congruence.
  exists password. eexists. split; [exact Hcore|].
  destruct (success_result_lookup password
              (if use_default_fingerprint then "default_fingerprint"
               else "manual_master_key") (len user_keys))
    as (Hs & Hp & Hl & _ & Hk & _).
  cbv zeta in Hs, Hp, Hl, Hk. rewrite Hlen in Hl. by repeat split.
Qed.

Lemma core_password_meets_contract_witness :
  ("anchor" <> "" \/ false = true) /\ ["alpha"] <> [] /\ 4 <= 16 <= 2 ^ 32
  /\ exists password r,
       PasswordCore.generate_password sample_detector "anchor" ["alpha"] 16 false
       = Returns r
       /\ r !! "password" = Some (VStr password)
       /\ str_len password = 16.
Proof.
  split; [by left|]. split; [done|]. split; [lia|].
  destruct (core_password_meets_contract sample_detector "anchor" ["alpha"] 16 false)
    as (password & r & Hrun & _ & Hp & _ & _ & Hlen & _); [by left | done | lia |].
  exists password, r. split; [exact Hrun|]. split; [exact Hp | exact Hlen].
Defined.

(** X8. Entering the fingerprint as a manual master key reproduces the
    fingerprint mode: the two calls return the same password (or the same
    failure) and differ only in the reported source. *)
Theorem fingerprint_as_manual_key (hw hw' : HardwareDetector) (master_key : string)
    (user_keys : list string) (length : Z) :
  user_keys <> [] ->
  (exists password,
     PasswordCore.generate_password hw master_key user_keys length true
     = Returns (success_result password "default_fingerprint" (len user_keys))
     /\ PasswordCore.generate_password hw' (get_default_fingerprint hw) user_keys
          length false
        = Returns (success_result password "manual_master_key" (len user_keys)))
  \/ (exists msg,
        PasswordCore.generate_password hw master_key user_keys length true
        = Returns (failure_result msg)
        /\ PasswordCore.generate_password hw' (get_default_fingerprint hw) user_keys
             length false
           = Returns (failure_result msg)).
Proof.
  intros Hkeys.
  pose proof (get_default_fingerprint_nonempty hw) as Hfp.
  destruct (core_generate_cases hw master_key user_keys length true
              ltac:(by right) Hkeys) as [Hkm Hfinger].
  destruct (core_generate_cases hw' (get_default_fingerprint hw) user_keys length false
              ltac:(by left) Hkeys) as [_ Hmanual].
  cbv zeta in Hkm, Hfinger, Hmanual.
  set (key_material := PasswordGenerator._generate_pbkdf2 _) in *.
  clearbody key_material.
  destruct Hfinger as [(p1 & Hrun1 & Hcore1)|(e1 & Hrun1 & Hcore1)];
    destruct Hmanual as [(p2 & Hrun2 & Hcore2)|(e2 & Hrun2 & Hcore2)];
    try congruence.
  - left. assert (p2 = p1) as -> by congruence. by exists p1.
  - right. assert (e2 = e1) as -> by congruence. by eexists.
Qed.

Lemma fingerprint_as_manual_key_witness :
  ["alpha"] <> []
  /\ ((exists password,
         PasswordCore.generate_password sample_detector "" ["alpha"] 16 true
         = Returns (success_result password "default_fingerprint" 1)
         /\ PasswordCore.generate_password sample_detector
              (get_default_fingerprint sample_detector) ["alpha"] 16 false
            = Returns (success_result password "manual_master_key" 1))
      \/ (exists msg,
            PasswordCore.generate_password sample_detector "" ["alpha"] 16 true
            = Returns (failure_result msg)
            /\ PasswordCore.generate_password sample_detector
                 (get_default_fingerprint sample_detector) ["alpha"] 16 false
               = Returns (failure_result msg))).
Proof.
  split; [done|].
  exact (fingerprint_as_manual_key sample_detector sample_detector "" ["alpha"] 16
           ltac:(done)).
Defined.

(** X9. The fingerprint always has 32 characters, each a lowercase
    hexadecimal digit, whatever the probes report. *)
Theorem fingerprint_is_32_hex_digits (self : HardwareDetector) :
  String.length (get_default_fingerprint self) = 32%nat
  /\ Forall (fun c => c ∈ chars "0123456789abcdef")
       (chars (get_default_fingerprint self)).
Proof.
  destruct (get_default_fingerprint_digest self) as [ids ->].
  apply digest_prefix_format.
Qed.

(** X10. The platform description is a fallback only: it enters the
    fingerprint when both probes report nothing, an empty string counting
    as nothing, and is ignored as soon as one probe reports an
    identifier. *)
Theorem platform_is_fallback_only (cpu_id mb_serial : option string)
    (platform1 platform2 : string) :
  (option_truthy cpu_id || option_truthy mb_serial = true ->
   get_default_fingerprint
     {| _get_cpu_id := cpu_id; _get_motherboard_serial := mb_serial;
        platform_platform := platform1 |}
   = get_default_fingerprint
       {| _get_cpu_id := cpu_id; _get_motherboard_serial := mb_serial;
          platform_platform := platform2 |})
  /\ (option_truthy cpu_id || option_truthy mb_serial = false ->
      get_default_fingerprint
        {| _get_cpu_id := cpu_id; _get_motherboard_serial := mb_serial;
           platform_platform := platform1 |}
      = str_slice_to
          (hexdigest (SHA256.sha256 (encode ("sys:" +:+ platform1)))) 32)
  /\ option_truthy (Some "") = false.
Proof.
  unfold get_default_fingerprint. cbn [_get_cpu_id _get_motherboard_serial platform_platform].
  split; [|split; [|reflexivity]].
  - intros Hany. destruct (option_truthy cpu_id), (option_truthy mb_serial);
      try reflexivity. discriminate.
  - intros Hnone. destruct (option_truthy cpu_id), (option_truthy mb_serial);
      try discriminate. reflexivity.
Qed.

(** X11. The identifiers are joined without escaping: a CPU identifier
    that contains the text [|mb:] gives the same fingerprint as the two
    identifiers it reads as. *)
Theorem fingerprint_separator_collision (a b platform : string) :
  a <> "" -> b <> "" ->
  get_default_fingerprint
    {| _get_cpu_id := Some (a +:+ "|mb:" +:+ b); _get_motherboard_serial := None;
       platform_platform := platform |}
  = get_default_fingerprint
      {| _get_cpu_id := Some a; _get_motherboard_serial := Some b;
         platform_platform := platform |}.
Proof.
  intros Ha Hb. unfold get_default_fingerprint.
  cbn [_get_cpu_id _get_motherboard_serial platform_platform option_truthy default].
  assert (str_truthy a = true) as -> by (by destruct a).
  assert (str_truthy b = true) as -> by (by destruct b).
  assert (str_truthy (a +:+ "|mb:" +:+ b) = true) as -> by (by destruct a).
  cbn [app negb list_truthy].
  (* both joins compute to [cpu:] followed by [a], [|mb:] and [b] *)
  reflexivity.
Qed.

Lemma fingerprint_separator_collision_witness :
  "A1" <> "" /\ "B2" <> ""
  /\ get_default_fingerprint
       {| _get_cpu_id := Some "A1|mb:B2"; _get_motherboard_serial := None;
          platform_platform := "Linux" |}
     = get_default_fingerprint
         {| _get_cpu_id := Some "A1"; _get_motherboard_serial := Some "B2";
            platform_platform := "Linux" |}.
Proof.
  split; [done|]. split; [done|].
  exact (fingerprint_separator_collision "A1" "B2" "Linux" ltac:(done) ltac:(done)).
Defined.

(** * The combined input of separator-free strings *)

Lemma chars_append (s1 s2 : string) : chars (s1 +:+ s2) = chars s1 ++ chars s2.
Proof.
  induction s1 as [|c s1 IH]; [reflexivity|].
  change (c :: chars (s1 +:+ s2) = c :: (chars s1 ++ chars s2)). by rewrite IH.
Qed.

Lemma chars_inj (s1 s2 : string) : chars s1 = chars s2 -> s1 = s2.
Proof.
  intros H. apply (f_equal string_of_list_ascii) in H.
  unfold chars in H. by rewrite !string_of_list_ascii_of_string in H.
Qed.

(** Two texts cut at their first separator agree piece by piece. *)
Lemma split_at_first_pipe (a a' r r' : list ascii) :
  "|"%char ∉ a -> "|"%char ∉ a' ->
  a ++ "|"%char :: r = a' ++ "|"%char :: r' ->
  a = a' /\ r = r'.
Proof.
  revert a'. induction a as [|c a IH]; intros a' Ha Ha' Heq.
  - destruct a' as [|c' a']; cbn [app] in Heq.
    + by injection Heq as <-.
    + injection Heq as <- _. exfalso. apply Ha'. left.
  - destruct a' as [|c' a']; cbn [app] in Heq.
    + injection Heq as -> _. exfalso. apply Ha. left.
    + injection Heq as <- Heq.
      destruct (IH a') as [<- <-]; [| |exact Heq|done].
      * intros H. apply Ha. by right.
      * intros H. apply Ha'. by right.
Qed.

Lemma chars_join_cons (k k' : string) (ks : list string) :
  chars (join "|" (k :: k' :: ks)) = chars k ++ "|"%char :: chars (join "|" (k' :: ks)).
Proof. rewrite join_cons, !chars_append. reflexivity. Qed.

(** Joining separator-free keywords loses nothing. *)
Lemma join_pipe_free_inj (ks ks' : list string) :
  ks <> [] -> ks' <> [] ->
  Forall pipe_free ks -> Forall pipe_free ks' ->
  join "|" ks = join "|" ks' -> ks = ks'.
Proof.
  revert ks'. induction ks as [|k ks IH]; intros ks' Hne Hne' Hfree Hfree' Heq; [done|].
  destruct ks' as [|k' ks']; [done|].
  apply Forall_cons in Hfree as [Hk Hfree].
  apply Forall_cons in Hfree' as [Hk' Hfree'].
  apply (f_equal chars) in Heq. unfold pipe_free in Hk, Hk'.
  destruct ks as [|k2 ks], ks' as [|k2' ks'].
  - f_equal. by apply chars_inj.
  - exfalso. rewrite chars_join_cons in Heq. apply Hk.
    change (chars (join "|" [k])) with (chars k) in Heq. rewrite Heq.
    apply elem_of_app. right. left.
  - exfalso. rewrite chars_join_cons in Heq. apply Hk'.
    change (chars (join "|" [k'])) with (chars k') in Heq. rewrite <- Heq.
    apply elem_of_app. right. left.
  - rewrite !chars_join_cons in Heq.
    apply split_at_first_pipe in Heq as [Hhead Htail]; [|done|done].
    apply chars_inj in Hhead as <-. apply chars_inj in Htail.
    f_equal. by apply IH.
Qed.

Lemma combined_input_pipe_free_inj (secret secret' : string) (ks ks' : list string) :
  ks <> [] -> ks' <> [] ->
  pipe_free secret -> pipe_free secret' ->
  Forall pipe_free ks -> Forall pipe_free ks' ->
  PasswordGenerator.combined_input secret ks
  = PasswordGenerator.combined_input secret' ks' ->
  secret = secret' /\ ks = ks'.
Proof.
  intros Hne Hne' Hs Hs' Hfree Hfree' Heq.
  apply (f_equal chars) in Heq. unfold PasswordGenerator.combined_input in Heq.
  rewrite !chars_append in Heq.
  change (chars "|") with ["|"%char] in Heq. rewrite <- !app_assoc in Heq.
  cbn [app] in Heq.
  apply split_at_first_pipe in Heq as [Hsecret Hjoin]; [|done|done].
  apply chars_inj in Hsecret. apply chars_inj in Hjoin.
  split; [done|]. by apply join_pipe_free_inj.
Qed.

(** X12. The ambiguity of the combined input comes from the separator
    alone: when neither the secrets nor the keywords contain [|], two
    calls with non-empty keyword lists build the same combined input only
    if their secrets are equal and their keyword lists are equal, entry by
    entry and in the same order. *)
Theorem combined_input_unambiguous_without_separator (secret secret' : string)
    (keywords keywords' : list string) :
  keywords <> [] -> keywords' <> [] ->
  pipe_free secret -> pipe_free secret' ->
  Forall pipe_free keywords -> Forall pipe_free keywords' ->
  PasswordGenerator.combined_input secret keywords
  = PasswordGenerator.combined_input secret' keywords' ->
  secret = secret' /\ keywords = keywords'.
Proof. apply combined_input_pipe_free_inj. Qed.

Lemma combined_input_unambiguous_without_separator_witness :
  ["alpha"; "beta"] <> []
  /\ pipe_free "anchor"
  /\ Forall pipe_free ["alpha"; "beta"]
  /\ PasswordGenerator.combined_input "anchor" ["alpha"; "beta"]
     = PasswordGenerator.combined_input "anchor" ["alpha"; "beta"]
  /\ "anchor" = "anchor" /\ ["alpha"; "beta"] = ["alpha"; "beta"].
Proof.
  assert (pipe_free "anchor") as Hs by (unfold pipe_free; by vm_compute; intros H;
    repeat (apply elem_of_cons in H as [H|H]; [discriminate|]); by apply elem_of_nil in H).
  assert (Forall pipe_free ["alpha"; "beta"]) as Hk.
  { repeat constructor; unfold pipe_free; vm_compute; intros H;
      repeat (apply elem_of_cons in H as [H|H]; [discriminate|]);
      by apply elem_of_nil in H. }
  split; [done|]. split; [exact Hs|]. split; [exact Hk|]. split; [reflexivity|].
  exact (combined_input_unambiguous_without_separator "anchor" "anchor"
           ["alpha"; "beta"] ["alpha"; "beta"] ltac:(done) ltac:(done) Hs Hs Hk Hk
           eq_refl).
Defined.

(** * Lengths beyond 2^32 *)

(** From a buffer whose length is a multiple of 32, the hash chain walks
    in steps of 32 characters up to 2^32, where the counter no longer
    fits in four bytes. *)
Lemma step3_overflows (key_material : list byte) (length : Z) (fuel : nat) :
  2 ^ 32 < length ->
  forall p : list ascii,
    len p <= 2 ^ 32 -> len p mod 32 = 0 ->
    (Z.to_nat (2 ^ 32 - len p) + 1 <= fuel)%nat ->
    PasswordGenerator.step3 fuel key_material length p
    = Raises (OverflowError "int too big to convert").
Proof.
  intros Hlength. induction fuel as [|fuel IH]; intros p Hmax Hmod Hfuel; [lia|].
  unfold PasswordGenerator.step3. cbn [while].
  destruct (Z.ltb_spec (len p) length) as [_|]; [|lia].
  destruct (Z.eq_dec (len p) (2 ^ 32)) as [Hfull|Hless].
  - rewrite extension_round_raises by lia. reflexivity.
  - pose proof (Z.div_mod (len p) 32 ltac:(lia)) as Hdiv. rewrite Hmod in Hdiv.
    assert (len p + 32 <= 2 ^ 32) as Hroom by lia.
    rewrite extension_round_returns by lia. run.
    fold (PasswordGenerator.step3 fuel key_material length
            (spec_extension_round 88 key_material length p)).
    pose proof (len_spec_extension_round key_material 88 length p) as Hlen.
    apply IH.
    + lia.
    + rewrite Hlen. replace (Z.max 0 (Z.min 32 (length - len p))) with (1 * 32) by lia.
      by rewrite Z_mod_plus_full.
    + lia.
Qed.

Lemma _map_to_password_overflows (key_material : list byte) (length : Z) :
  List.length key_material = 64%nat ->
  2 ^ 32 < length ->
  PasswordGenerator._map_to_password key_material length
  = Raises (OverflowError "int too big to convert").
Proof.
  intros Hkm Hlength.
  pose proof (len_class_prefix_64 key_material Hkm) as H4.
  unfold PasswordGenerator._map_to_password, PasswordGenerator.fill_buffer.
  rewrite step1_returns. run. unfold len at 1. rewrite step2_exact. run.
  assert (len (class_prefix key_material
               ++ map (fun b => pick PasswordGenerator.all_chars (byte_val b))
                    (take (Z.to_nat (Z.min (length - len (class_prefix key_material))
                                       (len key_material
                                        - Z.of_nat (List.length (class_prefix key_material)))))
                       (drop (List.length (class_prefix key_material)) key_material)))
          = 64) as Hlen.
  { rewrite len_app, H4. unfold len in *.
    rewrite length_map, length_take, length_drop, Hkm. lia. }
  rewrite step3_overflows; [reflexivity|lia| | |]; rewrite Hlen; [lia|reflexivity|lia].
Qed.

Lemma core_generate_overflows (hw : HardwareDetector) (master_key : string)
    (user_keys : list string) (length : Z) (use_default_fingerprint : bool) :
  master_key <> "" \/ use_default_fingerprint = true ->
  user_keys <> [] ->
  2 ^ 32 < length ->
  PasswordCore.generate_password hw master_key user_keys length use_default_fingerprint
  = Returns (failure_result "int too big to convert").
Proof.
  intros Hsecret Hkeys Hlength.
  rewrite core_generate_valid by assumption.
  set (key_material := PasswordGenerator._generate_pbkdf2 _).
  assert (List.length key_material = 64%nat) as Hkm by apply length__generate_pbkdf2.
  clearbody key_material.
  by rewrite (_map_to_password_overflows key_material length Hkm Hlength).
Qed.

(** X13. A length above 2^32 is answered by a failure, not by a password:
    the hash chain reaches 2^32 characters, [to_bytes(4, 'big')] raises
    OverflowError, and the core reports its message. *)
Theorem length_beyond_2_32_is_a_failure (hw : HardwareDetector) (master_key : string)
    (user_keys : list string) (length : Z) (use_default_fingerprint : bool) :
  master_key <> "" \/ use_default_fingerprint = true ->
  user_keys <> [] ->
  2 ^ 32 < length ->
  PasswordCore.generate_password hw master_key user_keys length use_default_fingerprint
  = Returns (failure_result "int too big to convert")
  /\ fails_with (failure_result "int too big to convert") "int too big to convert".
Proof.
  intros Hsecret Hkeys Hlength. split.
  - by apply core_generate_overflows.
  - apply fails_with_failure_result.
Qed.

Lemma length_beyond_2_32_is_a_failure_witness :
  ("anchor" <> "" \/ false = true) /\ ["alpha"] <> [] /\ 2 ^ 32 < 2 ^ 32 + 1
  /\ PasswordCore.generate_password sample_detector "anchor" ["alpha"] (2 ^ 32 + 1) false
     = Returns (failure_result "int too big to convert").
Proof.
  split; [by left|]. split; [done|]. split; [lia|].
  destruct (length_beyond_2_32_is_a_failure sample_detector "anchor" ["alpha"]
              (2 ^ 32 + 1) false) as [H _]; [by left | done | lia | exact H].
Defined.

(** * Buffers of different lengths *)

(** More fuel does not change what a loop returns. *)
Lemma while_fuel_mono {S : Type} (cond : S -> bool) (body : S -> outcome S)
    (fuel : nat) :
  forall s s' fuel', while fuel cond body s = Returns s' -> (fuel <= fuel')%nat ->
    while fuel' cond body s = Returns s'.
Proof.
  induction fuel as [|fuel IH]; intros s s' fuel' Hrun Hle; simpl in Hrun.
  - destruct (cond s) eqn:Hc; [discriminate|]. by rewrite while_done.
  - destruct (cond s) eqn:Hc; [|by rewrite while_done].
    destruct fuel' as [|fuel']; [lia|]. simpl. rewrite Hc.
    apply bind_returns_inv in Hrun as (s1 & -> & Hrun). run.
    apply (IH s1 s'); [done | lia].
Qed.

Lemma while_fuel_agree {S : Type} (cond : S -> bool) (body : S -> outcome S)
    (fuel fuel' : nat) (s s1 s2 : S) :
  while fuel cond body s = Returns s1 -> while fuel' cond body s = Returns s2 ->
  s1 = s2.
Proof.
  intros H1 H2.
  apply (while_fuel_mono _ _ _ _ _ (fuel `max` fuel')%nat) in H1; [|lia].
  apply (while_fuel_mono _ _ _ _ _ (fuel `max` fuel')%nat) in H2; [|lia].
  congruence.
Qed.

(** What step 3 returns extends the buffer it started from. *)
Lemma step3_extends (key_material : list byte) (length : Z) (fuel : nat)
    (p buf : list ascii) :
  PasswordGenerator.step3 fuel key_material length p = Returns buf ->
  exists r, buf = p ++ r.
Proof.
  intros Hrun. unfold PasswordGenerator.step3 in Hrun.
  eapply (while_invariant _ _ (fun q => exists r, q = p ++ r)) in Hrun as [H _];
    [exact H| |by exists []; rewrite app_nil_r].
  intros q q1 [r ->] _ Hround.
  destruct (Z.lt_ge_cases (len (p ++ r)) (2 ^ 32)) as [Hsmall|Hbig].
  - rewrite extension_round_returns in Hround by done. injection Hround as <-.
    unfold spec_extension_round. rewrite <- app_assoc. eauto.
  - rewrite extension_round_raises in Hround by done. discriminate.
Qed.

(** The hash chain for a shorter length stops earlier on the same
    characters. *)
Lemma step3_prefix (key_material : list byte) (L L' : Z) :
  L <= L' -> L' <= 2 ^ 32 ->
  forall (fuel : nat) (p buf' : list ascii),
    len p <= L ->
    PasswordGenerator.step3 fuel key_material L' p = Returns buf' ->
    exists fuel0,
      PasswordGenerator.step3 fuel0 key_material L p
      = Returns (take (Z.to_nat L) buf').
Proof.
  intros HL HL'. induction fuel as [|fuel IH]; intros p buf' Hp Hrun.
  - unfold PasswordGenerator.step3 in *. simpl in Hrun.
    destruct (Z.ltb_spec (len p) L') as [|Hfull]; [discriminate|].
    injection Hrun as <-. exists 0%nat.
    rewrite while_done by (apply Z.ltb_ge; lia).
    rewrite take_ge; [done | unfold len in *; lia].
  - pose proof Hrun as Hext. apply step3_extends in Hext as [r Hext].
    unfold PasswordGenerator.step3 in Hrun. cbn [while] in Hrun.
    destruct (Z.ltb_spec (len p) L') as [Hshort|Hfull].
    + apply bind_returns_inv in Hrun as (p1 & Hround & Hrest).
      rewrite extension_round_returns in Hround by lia. injection Hround as <-.
      fold (PasswordGenerator.step3 fuel key_material L'
              (spec_extension_round 88 key_material L' p)) in Hrest.
      destruct (Z.lt_ge_cases (len p) L) as [HpL|HpL].
      * pose proof (len_spec_extension_round key_material 88 L p) as HlenL.
        pose proof (len_spec_extension_round key_material 88 L' p) as HlenL'.
        destruct (Z.le_gt_cases (len p + 32) L) as [Hwhole|Hpart].
        -- assert (spec_extension_round 88 key_material L p
                   = spec_extension_round 88 key_material L' p) as Hsame.
           { unfold spec_extension_round. f_equal.
             rewrite !take_ge; [done| |];
               rewrite length_map, length_sha256; lia. }
           destruct (IH (spec_extension_round 88 key_material L' p) buf')
             as [fuel0 Hrun0]; [lia | exact Hrest |].
           exists (S fuel0). unfold PasswordGenerator.step3. cbn [while].
           destruct (Z.ltb_spec (len p) L) as [_|]; [|lia].
           rewrite extension_round_returns by lia. run. by rewrite Hsame.
        -- exists 1%nat. unfold PasswordGenerator.step3. cbn [while].
           destruct (Z.ltb_spec (len p) L) as [_|]; [|lia].
           rewrite extension_round_returns by lia. run.
           destruct (Z.ltb_spec (len (spec_extension_round 88 key_material L p)) L)
             as [|_]; [lia|].
           f_equal. apply step3_extends in Hrest as [r1 ->].
           rewrite take_app_le by (unfold len in *; lia).
           unfold spec_extension_round.
           rewrite take_app_ge by (unfold len in *; lia).
           f_equal. rewrite take_take. f_equal. unfold len. lia.
      * exists 0%nat. unfold PasswordGenerator.step3.
        rewrite while_done by (apply Z.ltb_ge; lia).
        f_equal. rewrite Hext. apply eq_sym, take_app_length'. unfold len in *. lia.
    + injection Hrun as <-. exists 0%nat. unfold PasswordGenerator.step3.
      rewrite while_done by (apply Z.ltb_ge; lia).
      rewrite take_ge; [done | unfold len in *; lia].
Qed.

(** Steps 1 and 2 on a 64-byte key material: the class characters and one
    character for each further byte up to the length. *)
Lemma fill_buffer_64 (key_material : list byte) (length : Z) :
  List.length key_material = 64%nat ->
  4 <= length ->
  PasswordGenerator.fill_buffer key_material length
  = PasswordGenerator.step3 (Z.to_nat length) key_material length
      (class_prefix key_material
       ++ map (fun b => pick PasswordGenerator.all_chars (byte_val b))
            (take (Z.to_nat (Z.min length 64) - 4) (drop 4 key_material))).
Proof.
  intros Hkm Hlength.
  pose proof (len_class_prefix_64 key_material Hkm) as H4.
  unfold PasswordGenerator.fill_buffer. rewrite step1_returns. run.
  unfold len at 1. rewrite step2_exact. run.
  assert (List.length (class_prefix key_material) = 4%nat) as ->
    by (unfold len in H4; lia).
  rewrite H4. unfold len at 1. rewrite Hkm.
  by replace (Z.to_nat (Z.min (length - 4) (Z.of_nat 64 - Z.of_nat 4)))
    with (Z.to_nat (Z.min length 64) - 4)%nat by lia.
Qed.

Lemma shorter_buffer_prefix (key_material : list byte) (L L' : Z) :
  List.length key_material = 64%nat ->
  4 <= L <= L' -> L' <= 2 ^ 32 ->
  exists buf',
    PasswordGenerator.fill_buffer key_material L' = Returns buf'
    /\ PasswordGenerator.fill_buffer key_material L
       = Returns (take (Z.to_nat L) buf').
Proof.
  intros Hkm HL HL'.
  pose proof (len_class_prefix_64 key_material Hkm) as H4.
  destruct (fill_buffer_returns key_material L' HL') as (r' & Hrun' & _).
  destruct (fill_buffer_returns key_material L ltac:(lia)) as (r & Hrun & _).
  exists (class_prefix key_material ++ r'). split; [exact Hrun'|].
  rewrite Hrun. f_equal.
  rewrite fill_buffer_64 in Hrun, Hrun' by (done || lia).
  destruct (Z.le_gt_cases L 64) as [Hsmall|Hlarge].
  - (* no hashing for [L]: both buffers start with the same key bytes *)
    replace (Z.min L 64) with L in Hrun by lia.
    unfold PasswordGenerator.step3 in Hrun. rewrite while_done in Hrun.
    2:{ apply Z.ltb_ge. rewrite len_app, H4. unfold len.
        rewrite length_map, length_take, length_drop, Hkm. lia. }
    injection Hrun as <-.
    apply step3_extends in Hrun' as [r1 ->].
    rewrite take_app_le.
    2:{ rewrite length_app, length_map, length_take, length_drop, Hkm.
        unfold len in H4. lia. }
    rewrite take_app_ge by (unfold len in H4; lia).
    f_equal. rewrite firstn_map, take_take. do 2 f_equal.
    unfold len in H4. lia.
  - (* both chains start from the same 64 characters *)
    replace (Z.min L 64) with 64 in Hrun by lia.
    replace (Z.min L' 64) with 64 in Hrun' by lia.
    assert (len (class_prefix key_material
                 ++ map (fun b => pick PasswordGenerator.all_chars (byte_val b))
                      (take (Z.to_nat 64 - 4) (drop 4 key_material))) <= L) as Hstart.
    { rewrite len_app, H4. unfold len.
      rewrite length_map, length_take, length_drop, Hkm. lia. }
    destruct (step3_prefix key_material L L' ltac:(lia) HL' _ _ _ Hstart Hrun')
      as [fuel0 Hrun0].
    exact (while_fuel_agree _ _ _ _ _ _ _ Hrun Hrun0).
Qed.

(** X14. Asking for a longer password only extends the unshuffled buffer:
    for a 64-byte key material and 4 <= L <= L' <= 2^32, the buffer that
    steps 1 to 3 build for [L] is the first [L] characters of the buffer
    they build for [L'] (the counter of a hash round is the length reached
    so far, which does not depend on the target). The final shuffle, which
    works modulo the length, is what makes the two passwords differ. *)
Theorem shorter_buffer_is_prefix_of_longer (key_material : list byte) (L L' : Z) :
  List.length key_material = 64%nat ->
  4 <= L <= L' -> L' <= 2 ^ 32 ->
  exists buf',
    PasswordGenerator.fill_buffer key_material L' = Returns buf'
    /\ PasswordGenerator.fill_buffer key_material L
       = Returns (take (Z.to_nat L) buf').
Proof. apply shorter_buffer_prefix. Qed.

Lemma shorter_buffer_is_prefix_of_longer_witness :
  List.length km_counting = 64%nat /\ 4 <= 70 <= 100 /\ 100 <= 2 ^ 32
  /\ exists buf',
       PasswordGenerator.fill_buffer km_counting 100 = Returns buf'
       /\ PasswordGenerator.fill_buffer km_counting 70
          = Returns (take (Z.to_nat 70) buf').
Proof.
  split; [reflexivity|]. split; [lia|]. split; [lia|].
  apply (shorter_buffer_is_prefix_of_longer km_counting 70 100); [reflexivity|lia|lia].
Defined.
